(** * DiodeScoutUI: the measurement store and its line-protocol parser

    A shallow embedding of [src/measurementdata.h] and
    [src/measurementdata.cpp]: the measurement points and series, the
    manager that assembles received bytes into lines, classifies each line
    and keeps the temporary and the completed series, and the queries the
    user interface makes on it.

    Conventions of the embedding:
    - a [double] is an IEEE 754 binary64 value, taken from the Standard
      Library's [SpecFloat] (zeros, infinities, NaN, finite numbers);
      [a > b] of the source is [gt a b];
    - a [char] is an [ascii], a [std::string] a [list ascii];
    - a member function that changes the manager takes the manager and
      returns the new one, next to its return value when it has one;
    - [series_.at(index)] throws [std::out_of_range]: [series] returns a sum;
    - [std::isspace] and [iss >> x] are those of the classic "C" locale. *)

From Stdlib Require Import Ascii String ZArith NArith Bool Arith Lia List.
From Stdlib Require Import Floats.SpecFloat.
From Stdlib Require Import DecimalString.
Import ListNotations.

Local Open Scope char_scope.
Local Open Scope list_scope.

(** ** Doubles *)

Module Double.

Definition prec : Z := 53.
Definition emax : Z := 1024.

Definition double : Type := spec_float.

(** The values a C++ [double] can hold. *)
Definition valid (x : double) : bool := valid_binary prec emax x.

(** [0.0] *)
Definition zero : double := S754_zero false.

(** [a > b] *)
Definition gt (a b : double) : bool := SFltb b a.

(** [a >= b] *)
Definition ge (a b : double) : bool := SFleb b a.

Definition is_finite (x : double) : bool :=
  match x with S754_zero _ | S754_finite _ _ _ => true | _ => false end.

(** The double nearest to [(-1)^neg * m * 10^e10] (ties to even), as
    [strtod] computes it from a decimal numeral; an infinity when the
    number is out of range. *)
Definition of_decimal (neg : bool) (m : N) (e10 : Z) : double :=
  match m with
  | N0 => S754_zero neg
  | Npos p =>
      if (0 <=? e10)%Z
      then binary_round prec emax neg (p * Z.to_pos (10 ^ e10)) 0
      else
        let '(q, e, l) :=
          SFdiv_core_binary prec emax (Zpos p) 0 (10 ^ (- e10)) 0 in
        binary_round_aux prec emax neg q e l
  end.

End Double.

Definition double : Type := Double.double.

(** ** Characters and strings *)

Definition std_string : Type := list ascii.

Definition LF : ascii := "010".
Definition CR : ascii := "013".

(** String literals of the source. *)
Definition lit (s : string) : std_string := list_ascii_of_string s.

Definition string_eqb (a b : std_string) : bool :=
  if list_eq_dec ascii_dec a b then true else false.

(** [std::isspace] in the "C" locale: space, and the controls from
    horizontal tab (9) to carriage return (13). *)
Definition isspace (c : ascii) : bool :=
  let n := nat_of_ascii c in
  ((n =? 32) || ((9 <=? n) && (n <=? 13)))%nat.

Definition isdigit (c : ascii) : bool :=
  let n := nat_of_ascii c in
  ((48 <=? n) && (n <=? 57))%nat.

Definition digit_value (c : ascii) : N := N.of_nat (nat_of_ascii c - 48).

(** ** Formatted extraction of a double: [iss >> x]

    The extraction operator of [<sstream>] is library code.  It is modelled
    after the C++ standard's [num_get] in the "C" locale: white space is
    skipped; the longest run of characters that can begin a decimal
    floating-point numeral ([sign] digits [. digits] [e [sign] digits]) is
    accumulated and taken off the stream; the accumulated field is converted
    by [strtod], and the extraction fails when nothing was accumulated, when
    [strtod] does not convert the whole field, or when the value is out of
    the range of a double. *)

Module Extract.

(** What has been accumulated so far. *)
Record field := {
  neg : bool;              (* a leading '-' *)
  mant : N;                (* the digits of the mantissa, as a number *)
  found_mantissa : bool;   (* a digit of the mantissa was read *)
  found_dec : bool;        (* the decimal point was read *)
  frac_digits : nat;       (* digits read after the decimal point *)
  found_sci : bool;        (* the exponent mark was read *)
  after_e : bool;          (* the last character read was the mark *)
  exp_neg : bool;          (* the exponent has a '-' *)
  exp_val : N;             (* the digits of the exponent, as a number *)
  exp_digits : bool        (* a digit of the exponent was read *)
}.

Definition empty_field (sign_neg : bool) : field :=
  {| neg := sign_neg; mant := 0; found_mantissa := false;
     found_dec := false; frac_digits := 0; found_sci := false;
     after_e := false; exp_neg := false; exp_val := 0;
     exp_digits := false |}.

Definition is_sign (c : ascii) : bool := Ascii.eqb c "+" || Ascii.eqb c "-".
Definition is_point (c : ascii) : bool := Ascii.eqb c ".".
Definition is_e (c : ascii) : bool := Ascii.eqb c "e" || Ascii.eqb c "E".

(** One character offered to the accumulated field: the field with the
    character taken, or [None] when the character cannot continue the
    numeral (the scan stops in front of it). *)
Definition accept (f : field) (c : ascii) : option field :=
  if after_e f && is_sign c then
    Some {| neg := neg f; mant := mant f;
            found_mantissa := found_mantissa f; found_dec := found_dec f;
            frac_digits := frac_digits f; found_sci := true;
            after_e := false; exp_neg := Ascii.eqb c "-";
            exp_val := exp_val f; exp_digits := exp_digits f |}
  else if isdigit c then
    if found_sci f then
      Some {| neg := neg f; mant := mant f;
              found_mantissa := true; found_dec := found_dec f;
              frac_digits := frac_digits f; found_sci := true;
              after_e := false; exp_neg := exp_neg f;
              exp_val := (10 * exp_val f + digit_value c)%N;
              exp_digits := true |}
    else
      Some {| neg := neg f; mant := (10 * mant f + digit_value c)%N;
              found_mantissa := true; found_dec := found_dec f;
              frac_digits :=
                if found_dec f then S (frac_digits f) else frac_digits f;
              found_sci := false; after_e := false; exp_neg := exp_neg f;
              exp_val := exp_val f; exp_digits := exp_digits f |}
  else if is_point c && negb (found_dec f) && negb (found_sci f) then
    Some {| neg := neg f; mant := mant f;
            found_mantissa := found_mantissa f; found_dec := true;
            frac_digits := frac_digits f; found_sci := false;
            after_e := false; exp_neg := exp_neg f;
            exp_val := exp_val f; exp_digits := exp_digits f |}
  else if is_e c && negb (found_sci f) && found_mantissa f then
    Some {| neg := neg f; mant := mant f;
            found_mantissa := true; found_dec := found_dec f;
            frac_digits := frac_digits f; found_sci := true;
            after_e := true; exp_neg := exp_neg f;
            exp_val := exp_val f; exp_digits := exp_digits f |}
  else None.

(** The accumulation loop: the field and the unread rest of the stream. *)
Fixpoint scan (f : field) (s : std_string) : field * std_string :=
  match s with
  | [] => (f, [])
  | c :: s' =>
      match accept f c with
      | Some f' => scan f' s'
      | None => (f, s)
      end
  end.

(** The optional sign in front of the numeral, then the loop. *)
Definition scan_field (s : std_string) : field * std_string :=
  match s with
  | c :: s' =>
      if is_sign c then scan (empty_field (Ascii.eqb c "-")) s'
      else scan (empty_field false) s
  | [] => (empty_field false, [])
  end.

(** [strtod] converts the whole field: the mantissa has a digit, and an
    exponent mark is followed by a digit. *)
Definition complete (f : field) : bool :=
  found_mantissa f && (negb (found_sci f) || exp_digits f).

Definition exponent10 (f : field) : Z :=
  ((if exp_neg f then - Z.of_N (exp_val f) else Z.of_N (exp_val f))
   - Z.of_nat (frac_digits f))%Z.

Definition value (f : field) : double :=
  Double.of_decimal (neg f) (mant f) (exponent10 f).

(** The sentry's skipping of leading white space. *)
Fixpoint skipws (s : std_string) : std_string :=
  match s with
  | c :: s' => if isspace c then skipws s' else s
  | [] => []
  end.

(** [iss >> x] on a stream whose unread part is [s]: the value stored in
    [x] and the part left unread, or [None] when the failbit is set. *)
Definition extract_double (s : std_string) : option (double * std_string) :=
  match skipws s with
  | [] => None
  | s1 =>
      let '(f, rest) := scan_field s1 in
      if complete f && Double.is_finite (value f)
      then Some (value f, rest)
      else None
  end.

End Extract.

Definition extract_double := Extract.extract_double.

(** ** Measurement points and series *)

Inductive ParseResult : Type :=
| Nothing
| SeriesCompleted.

Record MeasurementPoint : Type := {
  voltageVolt : double;
  currentMilliAmp : double
}.

Record MeasurementSeries : Type := {
  points_ : list MeasurementPoint
}.

(** [MeasurementSeries{}] *)
Definition emptySeries : MeasurementSeries := {| points_ := [] |}.

Definition addPoint (voltage currentMilliAmp_ : double)
    (s : MeasurementSeries) : MeasurementSeries :=
  {| points_ := points_ s ++
       [{| voltageVolt := voltage; currentMilliAmp := currentMilliAmp_ |}] |}.

Definition points (s : MeasurementSeries) : list MeasurementPoint :=
  points_ s.

Definition size (s : MeasurementSeries) : nat := length (points_ s).

Definition empty (s : MeasurementSeries) : bool :=
  match points_ s with [] => true | _ :: _ => false end.

(** ** The manager *)

Inductive ParserState : Type :=
| Idle
| ReceivingSeries.

Record MeasurementDataManager : Type := {
  state_ : ParserState;
  currentLine_ : std_string;
  tempSeries_ : MeasurementSeries;
  series_ : list MeasurementSeries
}.

(** The default-constructed manager. *)
Definition initial : MeasurementDataManager :=
  {| state_ := Idle; currentLine_ := []; tempSeries_ := emptySeries;
     series_ := [] |}.

Definition isReceiving (s : ParserState) : bool :=
  match s with ReceivingSeries => true | Idle => false end.

Definition seriesCount (m : MeasurementDataManager) : nat :=
  length (series_ m).

(** The exception of [std::vector::at]. *)
Inductive Exception : Type :=
| OutOfRange.

Definition series (index : nat) (m : MeasurementDataManager)
    : MeasurementSeries + Exception :=
  match nth_error (series_ m) index with
  | Some s => inl s
  | None => inr OutOfRange
  end.

Definition allSeries (m : MeasurementDataManager) : list MeasurementSeries :=
  series_ m.

Definition removeAllSeries (m : MeasurementDataManager)
    : MeasurementDataManager :=
  {| state_ := state_ m; currentLine_ := currentLine_ m;
     tempSeries_ := tempSeries_ m; series_ := [] |}.

(** [std::vector::pop_back] *)
Definition pop_back {A : Type} (l : list A) : list A := removelast l.

Definition removeLastSeries (m : MeasurementDataManager)
    : MeasurementDataManager :=
  match series_ m with
  | [] => m
  | _ :: _ =>
      {| state_ := state_ m; currentLine_ := currentLine_ m;
         tempSeries_ := tempSeries_ m; series_ := pop_back (series_ m) |}
  end.

Definition tempSeriesSize (m : MeasurementDataManager) : nat :=
  size (tempSeries_ m).

(** The inner loops of [getMaxVoltage] and [getMaxCurrent]: one pass over
    the points of a series, keeping the running maximum. *)
Definition scanPoints (coord : MeasurementPoint -> double)
    (ps : list MeasurementPoint) (maxC : double) : double :=
  fold_left (fun acc p => if Double.gt (coord p) acc then coord p else acc)
            ps maxC.

Definition scanAll (coord : MeasurementPoint -> double)
    (m : MeasurementDataManager) : double :=
  let maxC := Double.zero in
  let maxC :=
    fold_left (fun acc s => scanPoints coord (points s) acc) (series_ m) maxC in
  scanPoints coord (points (tempSeries_ m)) maxC.

Definition getMaxVoltage (m : MeasurementDataManager) : double :=
  scanAll voltageVolt m.

Definition getMaxCurrent (m : MeasurementDataManager) : double :=
  scanAll currentMilliAmp m.

(** *** [trim] *)

(** First loop: [start] moves over the leading white space; [rest] is the
    string from index [start] on. *)
Fixpoint trim_start (rest : std_string) (start : nat) : nat :=
  match rest with
  | c :: rest' => if isspace c then trim_start rest' (S start) else start
  | [] => start
  end.

(** Second loop: [end] moves back over the trailing white space, never
    below [start]. *)
Fixpoint trim_end (s : std_string) (start end_ : nat) : nat :=
  match end_ with
  | S e =>
      if (start <? end_)%nat && isspace (nth e s zero)
      then trim_end s start e
      else end_
  | O => O
  end.

(** [std::string::substr] *)
Definition substr (s : std_string) (pos len : nat) : std_string :=
  firstn len (skipn pos s).

Definition trim (s : std_string) : std_string :=
  let start := trim_start s 0 in
  let end_ := trim_end s start (length s) in
  substr s start (end_ - start).

(** *** The parser *)

(** [iss >> x >> y] on a stream holding [line]: the two values, or [None]
    when the stream has failed after the two extractions.  The second
    extraction starts where the first one stopped, and is not attempted when
    the first one failed. *)
Definition extract_two (line : std_string) : option (double * double) :=
  match extract_double line with
  | Some (x, rest) =>
      match extract_double rest with
      | Some (y, _) => Some (x, y)
      | None => None
      end
  | None => None
  end.

Definition parseDataLine (line : std_string) (m : MeasurementDataManager)
    : MeasurementDataManager :=
  match extract_two line with
  | Some (x, y) =>
      {| state_ := state_ m; currentLine_ := currentLine_ m;
         tempSeries_ := addPoint x y (tempSeries_ m);
         series_ := series_ m |}
  | None => m
  end.

Definition starts_with_star (line : std_string) : bool :=
  match line with
  | c :: _ => Ascii.eqb c "*"
  | [] => false
  end.

Definition handleCompletedLine (rawLine : std_string)
    (m : MeasurementDataManager) : ParseResult * MeasurementDataManager :=
  let line := trim rawLine in
  match line with
  | [] => (Nothing, m)
  | _ :: _ =>
      if string_eqb line (lit "*") then
        (Nothing,
         {| state_ := ReceivingSeries; currentLine_ := currentLine_ m;
            tempSeries_ := emptySeries; series_ := series_ m |})
      else if starts_with_star line && negb (string_eqb line (lit "*")) then
        (Nothing, m)
      else if string_eqb line (lit "#") then
        if isReceiving (state_ m) && negb (empty (tempSeries_ m)) then
          (SeriesCompleted,
           {| state_ := Idle; currentLine_ := currentLine_ m;
              tempSeries_ := emptySeries;
              series_ := series_ m ++ [tempSeries_ m] |})
        else (Nothing, m)
      else if isReceiving (state_ m) then
        (Nothing, parseDataLine line m)
      else (Nothing, m)
  end.

Definition processReceivedChar (c : ascii) (m : MeasurementDataManager)
    : ParseResult * MeasurementDataManager :=
  if Ascii.eqb c LF then
    let '(result, m') := handleCompletedLine (currentLine_ m) m in
    (result,
     {| state_ := state_ m'; currentLine_ := [];
        tempSeries_ := tempSeries_ m'; series_ := series_ m' |})
  else if negb (Ascii.eqb c CR) then
    (Nothing,
     {| state_ := state_ m; currentLine_ := currentLine_ m ++ [c];
        tempSeries_ := tempSeries_ m; series_ := series_ m |})
  else (Nothing, m).

(** The caller's loop: one call per received byte, in order; the results of
    the calls and the final manager. *)
Fixpoint feed (bytes : std_string) (m : MeasurementDataManager)
    : list ParseResult * MeasurementDataManager :=
  match bytes with
  | [] => ([], m)
  | c :: bytes' =>
      let '(r, m') := processReceivedChar c m in
      let '(rs, m'') := feed bytes' m' in
      (r :: rs, m'')
  end.

(** Every point the manager holds: those of the completed series, in order,
    then those of the temporary series. *)
Definition allPoints (m : MeasurementDataManager) : list MeasurementPoint :=
  concat (map points (series_ m)) ++ points (tempSeries_ m).

(** [r] is the maximum of the values [xs]: one of them, exceeded by none. *)
Definition is_max_of (xs : list double) (r : double) : Prop :=
  In r xs /\ forall x, In x xs -> Double.gt x r = false.

(** ** Some doubles *)

Definition d_1_0 : double := S754_finite false 4503599627370496 (-52).
Definition d_0_5 : double := S754_finite false 4503599627370496 (-53).
Definition d_2_0 : double := S754_finite false 4503599627370496 (-51).
Definition d_0_1 : double := S754_finite false 7205759403792794 (-56).

Definition d_3_0 : double := S754_finite false 6755399441055744 (-51).
Definition d_m1_0 : double := S754_finite true 4503599627370496 (-52).
Definition d_m2_0 : double := S754_finite true 4503599627370496 (-51).

Definition point (x y : double) : MeasurementPoint :=
  {| voltageVolt := x; currentMilliAmp := y |}.

(** [*], [-1.0 -1.0], [#]: one completed series of one point, both of whose
    coordinates are negative. *)
Definition m_negative : MeasurementDataManager :=
  Eval vm_compute in
  snd (feed (lit "*" ++ [LF] ++ lit "-1.0 -1.0" ++ [LF] ++ lit "#" ++ [LF])
            initial).

(** The series [(1.0,2.0),(3.0,0.5)] completed. *)
Definition m_two_points : MeasurementDataManager :=
  Eval vm_compute in
  snd (feed (lit "*" ++ [LF] ++ lit "1.0 2.0" ++ [LF] ++ lit "3.0 0.5" ++ [LF]
               ++ lit "#" ++ [LF]) initial).

(** [r] is the greatest of [0.0] and the values [xs]: not below [0.0], one
    of them or [0.0] itself, and exceeded by none of them. *)
Definition greatest_of_zero_and (xs : list double) (r : double) : Prop :=
  Double.ge r Double.zero = true /\
  (r = Double.zero \/ In r xs) /\
  (forall x, In x xs -> Double.gt x r = false).

Definition voltages (m : MeasurementDataManager) : list double :=
  map voltageVolt (allPoints m).

Definition currents (m : MeasurementDataManager) : list double :=
  map currentMilliAmp (allPoints m).

(** ** Describing the lines received *)

(** The white-space-separated tokens of a line, in order. *)
Fixpoint tokens (s : std_string) : list std_string :=
  match s with
  | [] => []
  | c :: s' =>
      if isspace c then tokens s'
      else
        match s' with
        | [] => [[c]]
        | c' :: _ =>
            if isspace c' then [c] :: tokens s'
            else
              match tokens s' with
              | t :: ts => (c :: t) :: ts
              | [] => [[c]]
              end
        end
  end.

Definition starts_blank (s : std_string) : Prop :=
  match s with
  | [] => True
  | c :: _ => isspace c = true
  end.

Definition all_space (s : std_string) : Prop := forallb isspace s = true.

Definition no_space (s : std_string) : Prop :=
  forallb (fun c => negb (isspace c)) s = true.

(** A string that neither begins nor ends with white space. *)
Definition head_nonblank (b : std_string) : Prop :=
  match b with
  | [] => True
  | c :: _ => isspace c = false
  end.

Definition last_nonblank (b : std_string) : Prop :=
  forall pre l, b = pre ++ [l] -> isspace l = false.

(** A token parses as a floating-point number when a number can be
    extracted from it and nothing of the token is left. *)
Definition token_value (t : std_string) : option double :=
  match extract_double t with
  | Some (v, []) => Some v
  | _ => None
  end.

(** The numbers of the first two tokens of a line, when both parse. *)
Definition first_two_values (line : std_string) : option (double * double) :=
  match tokens line with
  | t1 :: t2 :: _ =>
      match token_value t1, token_value t2 with
      | Some x, Some y => Some (x, y)
      | _, _ => None
      end
  | _ => None
  end.

(** A line as the manager assembles it: the carriage returns are dropped. *)
Definition drop_cr (l : std_string) : std_string :=
  filter (fun c => negb (Ascii.eqb c CR)) l.

(** The point a received line stands for, when the line (which holds no
    line feed) is made of two tokens that parse as floating-point numbers:
    the first is the voltage, the second the current. *)
Definition data_line_point (l : std_string) : option MeasurementPoint :=
  if existsb (Ascii.eqb LF) l then None
  else
    match tokens (drop_cr l) with
    | [t1; t2] =>
        match token_value t1, token_value t2 with
        | Some x, Some y => Some (point x y)
        | _, _ => None
        end
    | _ => None
    end.

(** The bytes of a series on the wire: the [*] line, the data lines, the
    [#] line, each ended by a line feed. *)
Definition series_bytes (lines : list std_string) : std_string :=
  lit "*" ++ [LF] ++ concat (map (fun l => l ++ [LF]) lines)
    ++ lit "#" ++ [LF].

(** The manager [m] with the point [(x, y)] appended to its temporary
    series. *)
Definition with_point (x y : double) (m : MeasurementDataManager)
    : MeasurementDataManager :=
  {| state_ := state_ m; currentLine_ := currentLine_ m;
     tempSeries_ := addPoint x y (tempSeries_ m); series_ := series_ m |}.

(** A manager about to receive the line feed that ends the line [line]. *)
Definition with_line (line : std_string) (st : ParserState)
    (temp : MeasurementSeries) (done : list MeasurementSeries)
    : MeasurementDataManager :=
  {| state_ := st; currentLine_ := line; tempSeries_ := temp;
     series_ := done |}.

Definition series_1 : MeasurementSeries :=
  {| points_ := [point d_1_0 d_0_5] |}.

Definition series_2 : MeasurementSeries :=
  {| points_ := [point d_2_0 d_1_0; point d_3_0 d_0_5] |}.

(** The operations on a manager that change it. *)
Inductive Operation : Type :=
| Receive (c : ascii)
| RemoveLast
| RemoveAll.

Definition perform (m : MeasurementDataManager) (op : Operation)
    : MeasurementDataManager :=
  match op with
  | Receive c => snd (processReceivedChar c m)
  | RemoveLast => removeLastSeries m
  | RemoveAll => removeAllSeries m
  end.

(** The manager after a run of operations on the initial one. *)
Definition after (ops : list Operation) : MeasurementDataManager :=
  fold_left perform ops initial.

Definition nonempty_series (s : MeasurementSeries) : Prop := points s <> [].

(** ** Reading a run of the parser *)

(** How many of the calls returned [SeriesCompleted]. *)
Definition completions (rs : list ParseResult) : nat :=
  length (filter (fun r => match r with SeriesCompleted => true
                                      | Nothing => false end) rs).

(** What the parser works on: everything but the completed collection. *)
Definition parser_part (m : MeasurementDataManager)
    : ParserState * std_string * MeasurementSeries :=
  (state_ m, currentLine_ m, tempSeries_ m).

Definition finite_point (p : MeasurementPoint) : bool :=
  Double.is_finite (voltageVolt p) && Double.is_finite (currentMilliAmp p).

(** Every point of the completed series and of the temporary series is
    finite. *)
Definition all_finite (m : MeasurementDataManager) : Prop :=
  Forall (fun s => Forall (fun p => finite_point p = true) (points s))
         (series_ m) /\
  Forall (fun p => finite_point p = true) (points (tempSeries_ m)).

(** The greater of two doubles as the scans compute it: [x] when [x > a],
    else [a]. *)
Definition scan_max (x a : double) : double :=
  if Double.gt x a then x else a.

(** ** Export

    [std::ofstream] and [QLocale] are library code.  Whether the file could
    be opened is the argument [is_open]; the text of a number,
    [loc.toString(d, 'f', 6).toStdString()], is the argument [toString],
    that of the system locale for [exportCSV] and that of the "C" locale
    for [exportPython].  An export returns [None] where the source returns
    [false], and the text sent to the file where it returns [true]. *)

(** The decimal text of an integer, as [operator<<] writes it. *)
Definition put_decimal (n : Z) : std_string :=
  lit (NilZero.string_of_int (Z.to_int n)).

(** [out << n] for a [std::size_t]. *)
Definition put_size_t (n : nat) : std_string := put_decimal (Z.of_nat n).

(** The conversion of a [std::size_t] to [int] (32 bits, two's
    complement). *)
Definition to_int (n : nat) : Z :=
  ((Z.of_nat n + 2 ^ 31) mod 2 ^ 32 - 2 ^ 31)%Z.

(** [out << n] for an [int]. *)
Definition put_int (n : Z) : std_string := put_decimal n.

Section ExportText.

Variable toString : double -> std_string.

(** One line of the table per point. *)
Definition csv_points (ps : list MeasurementPoint) : std_string :=
  concat (map (fun p => toString (voltageVolt p) ++ lit ";"
                          ++ toString (currentMilliAmp p) ++ [LF]) ps).

(** The body of the loop of [exportCSV] for [series_[i]]. *)
Definition csv_block (i : nat) (s : MeasurementSeries) : std_string :=
  lit "Series " ++ put_size_t (i + 1) ++ [LF]
    ++ lit "Voltage (V);Current (mA)" ++ [LF]
    ++ csv_points (points s)
    ++ [LF].

(** The loop of [exportCSV] from index [i] on; [rest] is [series_] from
    that index. *)
Fixpoint csv_from (i : nat) (rest : list MeasurementSeries) : std_string :=
  match rest with
  | [] => []
  | s :: rest' => csv_block i s ++ csv_from (S i) rest'
  end.

Definition exportCSV (is_open : bool) (m : MeasurementDataManager)
    : option std_string :=
  if negb is_open then None
  else Some (csv_from 0 (series_ m)).

(** The loop that writes a list of [exportPython], from index [j] on:
    [rest] is [s.points()] from that index, [n] is [s.points().size()]. *)
Fixpoint py_items (coord : MeasurementPoint -> double) (j n : nat)
    (rest : list MeasurementPoint) : std_string :=
  match rest with
  | [] => []
  | p :: rest' =>
      toString (coord p)
        ++ (if (j + 1 <? n)%nat then lit ", " else [])
        ++ py_items coord (S j) n rest'
  end.

(** The body of the loop of [exportPython] for [series_[i]]. *)
Definition py_block (i : nat) (s : MeasurementSeries) : std_string :=
  let idx := to_int (i + 1) in
  lit "# Series " ++ put_int idx ++ [LF]
    ++ lit "voltage_" ++ put_int idx ++ lit " = ["
    ++ py_items voltageVolt 0 (length (points s)) (points s)
    ++ lit "]" ++ [LF]
    ++ lit "current_" ++ put_int idx ++ lit " = ["
    ++ py_items currentMilliAmp 0 (length (points s)) (points s)
    ++ lit "]" ++ [LF]
    ++ lit "series.append((voltage_" ++ put_int idx
    ++ lit ", current_" ++ put_int idx ++ lit "))" ++ [LF; LF].

Fixpoint py_from (i : nat) (rest : list MeasurementSeries) : std_string :=
  match rest with
  | [] => []
  | s :: rest' => py_block i s ++ py_from (S i) rest'
  end.

Definition py_header : std_string :=
  lit "#!/usr/bin/env python3" ++ [LF]
    ++ lit "import matplotlib.pyplot as plt" ++ [LF; LF]
    ++ lit "series = []" ++ [LF; LF].

Definition py_plot : std_string :=
  lit "for i, (v, c) in enumerate(series):" ++ [LF]
    ++ lit "    plt.plot(v, c, label=f'Series {i+1}')" ++ [LF; LF]
    ++ lit "plt.xlabel('Volt (V)')" ++ [LF]
    ++ lit "plt.ylabel('Milliampere (mA)')" ++ [LF]
    ++ lit "plt.legend()" ++ [LF]
    ++ lit "plt.grid(True)" ++ [LF]
    ++ lit "plt.show()" ++ [LF].

Definition exportPython (is_open : bool) (m : MeasurementDataManager)
    : option std_string :=
  if negb is_open then None
  else Some (py_header ++ py_from 0 (series_ m) ++ py_plot).

End ExportText.

(** The items of a list separated by [sep]. *)
Fixpoint join (sep : std_string) (items : list std_string) : std_string :=
  match items with
  | [] => []
  | [x] => x
  | x :: rest => x ++ sep ++ join sep rest
  end.

(** A stand-in number format for the examples: every number reads [n]. *)
Definition toString_n (d : double) : std_string := lit "n".

(** ** The main window's reception of bytes ([mainwindow.cpp])

    What the window does to its status bar and its chart is kept as the
    list of the calls made, in order. *)

Inductive UiCall : Type :=
| ShowMessage (text : std_string)
| RebuildChart.

(** How many times the chart is rebuilt. *)
Definition rebuilds (calls : list UiCall) : nat :=
  length (filter (fun u => match u with RebuildChart => true
                                      | ShowMessage _ => false end) calls).

(** [QString(n, '.')]: empty when [n] is not positive. *)
Definition dots (n : Z) : std_string := repeat "."%char (Z.to_nat n).

Definition handleSerialByte (c : ascii) (m : MeasurementDataManager)
    : list UiCall * MeasurementDataManager :=
  let '(result, m') := processReceivedChar c m in
  match result with
  | SeriesCompleted => ([ShowMessage (lit "Ready"); RebuildChart], m')
  | Nothing =>
      if Ascii.eqb c LF then
        let n := to_int (tempSeriesSize m') in
        ([ShowMessage (lit "Receiving data " ++ dots n)], m')
      else ([], m')
  end.

(** [onSerialDataReceived], for the bytes [data] that [readAll] returned. *)
Fixpoint onSerialDataReceived (data : std_string) (m : MeasurementDataManager)
    : list UiCall * MeasurementDataManager :=
  match data with
  | [] => ([], m)
  | c :: data' =>
      let '(calls, m') := handleSerialByte c m in
      let '(calls', m'') := onSerialDataReceived data' m' in
      (calls ++ calls', m'')
  end.

(** The port's [readyRead] signal raised once per chunk. *)
Fixpoint receiveChunks (chunks : list std_string) (m : MeasurementDataManager)
    : list UiCall * MeasurementDataManager :=
  match chunks with
  | [] => ([], m)
  | data :: chunks' =>
      let '(calls, m') := onSerialDataReceived data m in
      let '(calls', m'') := receiveChunks chunks' m' in
      (calls ++ calls', m'')
  end.

(** [Remove last series] chosen [n] times in a row. *)
Fixpoint removeLastTimes (n : nat) (m : MeasurementDataManager)
    : MeasurementDataManager :=
  match n with
  | O => m
  | S n' => removeLastTimes n' (removeLastSeries m)
  end.

(** The status while a series is received: one dot per point. *)
Definition receiving (n : nat) : UiCall :=
  ShowMessage (lit "Receiving data " ++ repeat "."%char n).

(** * Properties *)

(** ** Tests on concrete inputs *)

Example doubles_valid :
  forallb Double.valid [d_1_0; d_0_5; d_2_0; d_0_1; d_3_0; d_m1_0; d_m2_0]
  = true.
Proof. reflexivity. Qed.

Example extract_0_1 :
  extract_double (lit "0.1") = Some (d_0_1, []).
Proof. vm_compute. reflexivity. Qed.

Example scenario :
  feed (lit "*" ++ [LF] ++ lit "1.0 0.5" ++ [LF] ++ lit "2.0 1.0" ++ [LF]
          ++ lit "#" ++ [LF]) initial
  = (repeat Nothing 19 ++ [SeriesCompleted],
     {| state_ := Idle; currentLine_ := []; tempSeries_ := emptySeries;
        series_ := [ {| points_ :=
          [ {| voltageVolt := d_1_0; currentMilliAmp := d_0_5 |};
            {| voltageVolt := d_2_0; currentMilliAmp := d_1_0 |} ] |} ] |}).
Proof. vm_compute. reflexivity. Qed.

(** ** The order of the doubles *)

Section DoubleOrder.

Local Ltac by_compare :=
  repeat match goal with
    | |- context [Z.compare ?x ?y] => destruct (Z.compare_spec x y)
    | |- context [Pos.compare_cont Eq ?x ?y] =>
        change (Pos.compare_cont Eq x y) with (Pos.compare x y);
        destruct (Pos.compare_spec x y)
    end;
  simpl; subst; intros; try reflexivity; try discriminate; try lia.

Lemma SFltb_trans (a b c : spec_float) :
  SFltb a b = true -> SFltb b c = true -> SFltb a c = true.
Proof.
  unfold SFltb, SFcompare.
  destruct a as [[]|[]| |[] ma ea], b as [[]|[]| |[] mb eb],
           c as [[]|[]| |[] mc ec];
    simpl; try discriminate; try reflexivity; by_compare.
Qed.

Lemma SFltb_irrefl (a : spec_float) : SFltb a a = false.
Proof.
  unfold SFltb, SFcompare.
  destruct a as [[]|[]| |[] ma ea]; simpl; try reflexivity;
    rewrite Z.compare_refl;
    change (Pos.compare_cont Eq ma ma) with (Pos.compare ma ma);
    rewrite Pos.compare_refl; reflexivity.
Qed.

Lemma SFleb_ltb_trans (a b c : spec_float) :
  SFleb a b = true -> SFltb b c = true -> SFleb a c = true.
Proof.
  unfold SFleb, SFltb, SFcompare.
  destruct a as [[]|[]| |[] ma ea], b as [[]|[]| |[] mb eb],
           c as [[]|[]| |[] mc ec];
    simpl; try discriminate; try reflexivity; by_compare.
Qed.

End DoubleOrder.

(** ** The aggregate queries *)

Section Scan.

Variable coord : MeasurementPoint -> double.

Lemma scanPoints_app (ps qs : list MeasurementPoint) (a : double) :
  scanPoints coord (ps ++ qs) a = scanPoints coord qs (scanPoints coord ps a).
Proof. unfold scanPoints. apply fold_left_app. Qed.

Lemma scanAll_allPoints (m : MeasurementDataManager) :
  scanAll coord m = scanPoints coord (allPoints m) Double.zero.
Proof.
  unfold scanAll, allPoints. rewrite scanPoints_app. f_equal.
  generalize Double.zero.
  induction (series_ m) as [|s ss IH]; intros a; simpl.
  - reflexivity.
  - rewrite scanPoints_app. apply IH.
Qed.

(** The running maximum is the start value or a coordinate met. *)
Lemma scanPoints_choice (ps : list MeasurementPoint) (a : double) :
  scanPoints coord ps a = a \/ In (scanPoints coord ps a) (map coord ps).
Proof.
  revert a. induction ps as [|p ps IH]; intros a; simpl.
  - left. reflexivity.
  - destruct (Double.gt (coord p) a).
    + destruct (IH (coord p)) as [-> | H]; auto.
    + destruct (IH a) as [-> | H]; auto.
Qed.

(** What does not exceed the start value does not exceed the result. *)
Lemma scanPoints_mono (ps : list MeasurementPoint) (a x : double) :
  Double.gt x a = false -> Double.gt x (scanPoints coord ps a) = false.
Proof.
  revert a. induction ps as [|p ps IH]; intros a Hx; simpl.
  - exact Hx.
  - apply IH. destruct (Double.gt (coord p) a) eqn:Hp.
    + unfold Double.gt in *.
      destruct (SFltb (coord p) x) eqn:Hpx; [|reflexivity].
      rewrite (SFltb_trans _ _ _ Hp Hpx) in Hx. discriminate.
    + exact Hx.
Qed.

(** No coordinate exceeds the result. *)
Lemma scanPoints_upper (ps : list MeasurementPoint) (a : double) (p : MeasurementPoint) :
  In p ps -> Double.gt (coord p) (scanPoints coord ps a) = false.
Proof.
  revert a. induction ps as [|q ps IH]; intros a Hin; simpl.
  - destruct Hin.
  - destruct Hin as [-> | Hin].
    + apply scanPoints_mono.
      destruct (Double.gt (coord p) a) eqn:Hp.
      * apply SFltb_irrefl.
      * exact Hp.
    + apply IH. exact Hin.
Qed.

(** The result is not below the start value's lower bound. *)
Lemma scanPoints_ge (ps : list MeasurementPoint) (a z : double) :
  Double.ge a z = true -> Double.ge (scanPoints coord ps a) z = true.
Proof.
  revert a. induction ps as [|p ps IH]; intros a Ha; simpl.
  - exact Ha.
  - apply IH. destruct (Double.gt (coord p) a) eqn:Hp.
    + unfold Double.ge, Double.gt in *.
      exact (SFleb_ltb_trans _ _ _ Ha Hp).
    + exact Ha.
Qed.

(** Nothing above the start value: the start value is returned. *)
Lemma scanPoints_none_above (ps : list MeasurementPoint) (a : double) :
  (forall p, In p ps -> Double.gt (coord p) a = false) ->
  scanPoints coord ps a = a.
Proof.
  induction ps as [|p ps IH]; intros H; simpl.
  - reflexivity.
  - rewrite (H p (or_introl eq_refl)). apply IH.
    intros q Hq. apply H. right. exact Hq.
Qed.

(** Something above the start value: a coordinate is returned. *)
Lemma scanPoints_some_above (ps : list MeasurementPoint) (a : double) (p : MeasurementPoint) :
  In p ps -> Double.gt (coord p) a = true ->
  In (scanPoints coord ps a) (map coord ps).
Proof.
  intros Hin Hp.
  destruct (scanPoints_choice ps a) as [E | H]; [|exact H].
  pose proof (scanPoints_upper ps a p Hin) as Hu.
  rewrite E in Hu. congruence.
Qed.

Lemma scanAll_spec (m : MeasurementDataManager) :
  let r := scanAll coord m in
  Double.ge r Double.zero = true /\
  (r = Double.zero \/ In r (map coord (allPoints m))) /\
  (forall p, In p (allPoints m) -> Double.gt (coord p) r = false).
Proof.
  cbv zeta. rewrite scanAll_allPoints. repeat split.
  - apply scanPoints_ge. reflexivity.
  - apply scanPoints_choice.
  - intros p Hp. apply scanPoints_upper. exact Hp.
Qed.

Lemma scanAll_max (m : MeasurementDataManager) (p : MeasurementPoint) :
  In p (allPoints m) -> Double.gt (coord p) Double.zero = true ->
  is_max_of (map coord (allPoints m)) (scanAll coord m).
Proof.
  intros Hin Hp. rewrite scanAll_allPoints. split.
  - exact (scanPoints_some_above _ _ p Hin Hp).
  - intros x Hx. apply in_map_iff in Hx. destruct Hx as [q [<- Hq]].
    apply scanPoints_upper. exact Hq.
Qed.

Lemma scanAll_zero (m : MeasurementDataManager) :
  (forall p, In p (allPoints m) -> Double.gt (coord p) Double.zero = false) ->
  scanAll coord m = Double.zero.
Proof.
  intros H. rewrite scanAll_allPoints. apply scanPoints_none_above. exact H.
Qed.

End Scan.

(** ** The claims on [getMaxVoltage] and [getMaxCurrent] *)

Example m_negative_points :
  allPoints m_negative = [point d_m1_0 d_m1_0].
Proof. vm_compute. reflexivity. Qed.

Example m_two_points_maxima :
  allPoints m_two_points = [point d_1_0 d_2_0; point d_3_0 d_0_5] /\
  getMaxVoltage m_two_points = d_3_0 /\
  getMaxCurrent m_two_points = d_2_0.
Proof. vm_compute. repeat split. Qed.

Example getMax_initial :
  getMaxVoltage initial = Double.zero /\ getMaxCurrent initial = Double.zero.
Proof. split; reflexivity. Qed.

Lemma in_map_coord (coord : MeasurementPoint -> double) (ps : list MeasurementPoint)
    (P : double -> Prop) :
  (forall p, In p ps -> P (coord p)) -> forall x, In x (map coord ps) -> P x.
Proof.
  intros H x Hx. apply in_map_iff in Hx. destruct Hx as [p [<- Hp]].
  apply H. exact Hp.
Qed.

Lemma scanAll_greatest (coord : MeasurementPoint -> double)
    (m : MeasurementDataManager) :
  greatest_of_zero_and (map coord (allPoints m)) (scanAll coord m).
Proof.
  destruct (scanAll_spec coord m) as (Hge & Hin & Hup).
  repeat split; try assumption.
  apply in_map_coord. exact Hup.
Qed.

Lemma scanAll_all_negative (coord : MeasurementPoint -> double)
    (m : MeasurementDataManager) :
  (forall x, In x (map coord (allPoints m)) -> Double.gt Double.zero x = true) ->
  scanAll coord m = Double.zero.
Proof.
  intros H. apply scanAll_zero. intros p Hp.
  specialize (H (coord p) (in_map coord _ _ Hp)).
  unfold Double.gt in *.
  destruct (SFltb Double.zero (coord p)) eqn:E; [|reflexivity].
  pose proof (SFltb_trans _ _ _ H E) as Hz.
  rewrite SFltb_irrefl in Hz. discriminate.
Qed.

(** C10: [getMaxVoltage] and [getMaxCurrent] never return a value less than
    [0.0]: for every manager, the value returned is the greatest of [0.0] and
    all the voltage (resp. current) coordinates of the points the manager
    holds; when all these coordinates are negative, [0.0] is returned and not
    the greatest coordinate. *)
Theorem getMax_floor_zero (m : MeasurementDataManager) :
  greatest_of_zero_and (voltages m) (getMaxVoltage m) /\
  greatest_of_zero_and (currents m) (getMaxCurrent m) /\
  ((forall x, In x (voltages m) -> Double.gt Double.zero x = true) ->
   getMaxVoltage m = Double.zero) /\
  ((forall x, In x (currents m) -> Double.gt Double.zero x = true) ->
   getMaxCurrent m = Double.zero).
Proof.
  repeat split;
    try apply (scanAll_greatest voltageVolt m);
    try apply (scanAll_greatest currentMilliAmp m).
  - apply scanAll_all_negative.
  - apply scanAll_all_negative.
Qed.

Lemma getMax_floor_zero_witness :
  voltages m_negative = [d_m1_0] /\
  getMaxVoltage m_negative = Double.zero /\
  getMaxCurrent m_negative = Double.zero.
Proof.
  destruct (getMax_floor_zero m_negative) as (_ & _ & Hv & Hc).
  split; [reflexivity|].
  split; [apply Hv | apply Hc]; intros x [<- | []]; reflexivity.
Defined.

(** C2, as stated, fails: the manager holding the single point
    [(-1.0, -1.0)] has points, and the value returned for either axis is
    [0.0], which is the coordinate of no point. *)
Lemma getMax_not_maximum_when_negative :
  allPoints m_negative <> [] /\
  ~ is_max_of (voltages m_negative) (getMaxVoltage m_negative) /\
  ~ is_max_of (currents m_negative) (getMaxCurrent m_negative).
Proof.
  split; [discriminate|].
  split; intros [[H | []] _]; discriminate H.
Qed.

(** C2, amended: [getMaxVoltage] (resp. [getMaxCurrent]) returns the maximum
    voltage (resp. current) coordinate over every point of every completed
    series and of the temporary series when some such coordinate is greater
    than [0.0]; it returns [0.0] when none is, in particular when no points
    exist anywhere.  No sign restriction is placed on the recorded values. *)
Theorem getMax_maximum_when_positive (m : MeasurementDataManager) :
  (allPoints m = [] ->
   getMaxVoltage m = Double.zero /\ getMaxCurrent m = Double.zero) /\
  ((exists x, In x (voltages m) /\ Double.gt x Double.zero = true) ->
   is_max_of (voltages m) (getMaxVoltage m)) /\
  ((exists x, In x (currents m) /\ Double.gt x Double.zero = true) ->
   is_max_of (currents m) (getMaxCurrent m)) /\
  ((forall x, In x (voltages m) -> Double.gt x Double.zero = false) ->
   getMaxVoltage m = Double.zero) /\
  ((forall x, In x (currents m) -> Double.gt x Double.zero = false) ->
   getMaxCurrent m = Double.zero).
Proof.
  repeat split.
  - apply scanAll_zero. intros p Hp. rewrite H in Hp. destruct Hp.
  - apply scanAll_zero. intros p Hp. rewrite H in Hp. destruct Hp.
  - destruct H as (x & Hx & Hpos). apply in_map_iff in Hx.
    destruct Hx as (p & <- & Hp).
    apply (proj1 (scanAll_max voltageVolt m p Hp Hpos)).
  - destruct H as (x & Hx & Hpos). apply in_map_iff in Hx.
    destruct Hx as (p & <- & Hp).
    apply (proj2 (scanAll_max voltageVolt m p Hp Hpos)).
  - destruct H as (x & Hx & Hpos). apply in_map_iff in Hx.
    destruct Hx as (p & <- & Hp).
    apply (proj1 (scanAll_max currentMilliAmp m p Hp Hpos)).
  - destruct H as (x & Hx & Hpos). apply in_map_iff in Hx.
    destruct Hx as (p & <- & Hp).
    apply (proj2 (scanAll_max currentMilliAmp m p Hp Hpos)).
  - intros H. apply scanAll_zero. intros p Hp. apply H.
    apply in_map. exact Hp.
  - intros H. apply scanAll_zero. intros p Hp. apply H.
    apply in_map. exact Hp.
Qed.

Lemma getMax_maximum_when_positive_witness :
  is_max_of [d_1_0; d_3_0] d_3_0 /\ is_max_of [d_2_0; d_0_5] d_2_0.
Proof.
  destruct (getMax_maximum_when_positive m_two_points) as (_ & Hv & Hc & _).
  split.
  - apply Hv. exists d_1_0. split; [left|]; reflexivity.
  - apply Hc. exists d_2_0. split; [left|]; reflexivity.
Defined.

(** ** The sentinel lines *)

Lemma string_eqb_eq (a b : std_string) : string_eqb a b = true <-> a = b.
Proof.
  unfold string_eqb. destruct (list_eq_dec ascii_dec a b); split;
    congruence.
Qed.

Lemma string_eqb_neq (a b : std_string) : a <> b -> string_eqb a b = false.
Proof.
  unfold string_eqb. destruct (list_eq_dec ascii_dec a b); congruence.
Qed.

Lemma string_eqb_refl (a : std_string) : string_eqb a a = true.
Proof. apply string_eqb_eq. reflexivity. Qed.

Lemma handle_hash (rawLine : std_string) (m : MeasurementDataManager) :
  trim rawLine = lit "#" ->
  handleCompletedLine rawLine m =
    if isReceiving (state_ m) && negb (empty (tempSeries_ m))
    then (SeriesCompleted,
          {| state_ := Idle; currentLine_ := currentLine_ m;
             tempSeries_ := emptySeries;
             series_ := series_ m ++ [tempSeries_ m] |})
    else (Nothing, m).
Proof.
  intros H. unfold handleCompletedLine. rewrite H.
  change (lit "#") with ["#"%char]. change (lit "*") with ["*"%char].
  rewrite string_eqb_refl.
  rewrite (string_eqb_neq ["#"%char] ["*"%char]) by discriminate.
  reflexivity.
Qed.

Lemma handle_star (rawLine : std_string) (m : MeasurementDataManager) :
  trim rawLine = lit "*" ->
  handleCompletedLine rawLine m =
    (Nothing,
     {| state_ := ReceivingSeries; currentLine_ := currentLine_ m;
        tempSeries_ := emptySeries; series_ := series_ m |}).
Proof.
  intros H. unfold handleCompletedLine. rewrite H.
  change (lit "*") with ["*"%char].
  rewrite string_eqb_refl. reflexivity.
Qed.

Lemma handle_star_text (rawLine : std_string) (m : MeasurementDataManager) :
  starts_with_star (trim rawLine) = true -> trim rawLine <> lit "*" ->
  handleCompletedLine rawLine m = (Nothing, m).
Proof.
  intros Hs Hne. unfold handleCompletedLine.
  destruct (trim rawLine) as [|c line] eqn:E; [reflexivity|].
  rewrite (string_eqb_neq _ _ Hne), Hs. reflexivity.
Qed.

Lemma handle_empty (rawLine : std_string) (m : MeasurementDataManager) :
  trim rawLine = [] -> handleCompletedLine rawLine m = (Nothing, m).
Proof. intros H. unfold handleCompletedLine. rewrite H. reflexivity. Qed.

Lemma process_LF (m : MeasurementDataManager) :
  processReceivedChar LF m =
    (fst (handleCompletedLine (currentLine_ m) m),
     let m' := snd (handleCompletedLine (currentLine_ m) m) in
     {| state_ := state_ m'; currentLine_ := [];
        tempSeries_ := tempSeries_ m'; series_ := series_ m' |}).
Proof.
  unfold processReceivedChar. rewrite Ascii.eqb_refl.
  destruct (handleCompletedLine (currentLine_ m) m). reflexivity.
Qed.

(** C3: the line feed that ends a line which, trimmed, is exactly [#]: in
    state [ReceivingSeries] with a non-empty temporary series, the temporary
    series is appended at the end of the completed collection, the temporary
    series is cleared, the state becomes [Idle] and the call returns
    [SeriesCompleted]; in every other case (in particular with an empty
    temporary series) the call returns [Nothing] and the completed
    collection, the temporary series and the state are unchanged. *)
Theorem hash_line_closes_series (m : MeasurementDataManager) :
  trim (currentLine_ m) = lit "#" ->
  let r := fst (processReceivedChar LF m) in
  let m' := snd (processReceivedChar LF m) in
  (state_ m = ReceivingSeries /\ points (tempSeries_ m) <> [] ->
   r = SeriesCompleted /\
   series_ m' = series_ m ++ [tempSeries_ m] /\
   tempSeries_ m' = emptySeries /\
   state_ m' = Idle) /\
  (~ (state_ m = ReceivingSeries /\ points (tempSeries_ m) <> []) ->
   r = Nothing /\
   series_ m' = series_ m /\
   tempSeries_ m' = tempSeries_ m /\
   state_ m' = state_ m).
Proof.
  intros H. cbv zeta. rewrite process_LF, (handle_hash _ _ H).
  unfold empty, points. clear H.
  destruct m as [st line [ps] done]; simpl.
  destruct st, ps as [|p ps]; simpl; split;
    intros Hc;
    try (destruct Hc as [Hc1 Hc2];
         first [discriminate Hc1 | exfalso; apply Hc2; reflexivity]);
    try (exfalso; apply Hc; split; [reflexivity | discriminate]);
    repeat split; reflexivity.
Qed.

Lemma hash_line_closes_series_witness :
  let m := with_line (lit " #") ReceivingSeries series_2 [series_1] in
  fst (processReceivedChar LF m) = SeriesCompleted /\
  series_ (snd (processReceivedChar LF m)) = [series_1; series_2] /\
  tempSeries_ (snd (processReceivedChar LF m)) = emptySeries /\
  state_ (snd (processReceivedChar LF m)) = Idle.
Proof.
  cbv zeta.
  refine (proj1 (hash_line_closes_series
            (with_line (lit " #") ReceivingSeries series_2 [series_1]) _) _).
  - vm_compute. reflexivity.
  - split; [reflexivity | discriminate].
Defined.

(** C4: the line feed that ends a line which, trimmed, is exactly [*]: in
    any state, the temporary series is replaced by a fresh empty one (what
    it held is dropped and does not enter the completed collection, which is
    unchanged), the state becomes [ReceivingSeries] and the call returns
    [Nothing]. *)
Theorem star_line_restarts_series (m : MeasurementDataManager) :
  trim (currentLine_ m) = lit "*" ->
  processReceivedChar LF m =
    (Nothing,
     {| state_ := ReceivingSeries; currentLine_ := [];
        tempSeries_ := emptySeries; series_ := series_ m |}).
Proof.
  intros H. rewrite process_LF, (handle_star _ _ H). reflexivity.
Qed.

Lemma star_line_restarts_series_witness :
  processReceivedChar LF
    (with_line (lit "*") ReceivingSeries series_2 [series_1]) =
  (Nothing, with_line [] ReceivingSeries emptySeries [series_1]).
Proof.
  apply (star_line_restarts_series
           (with_line (lit "*") ReceivingSeries series_2 [series_1])).
  vm_compute. reflexivity.
Defined.

(** C6: the line feed that ends a line which, trimmed, starts with [*] but
    is not exactly [*]: in any state the line is ignored; the state, the
    temporary series and the completed collection are unchanged and the call
    returns [Nothing]. *)
Theorem star_text_line_ignored (m : MeasurementDataManager) :
  starts_with_star (trim (currentLine_ m)) = true ->
  trim (currentLine_ m) <> lit "*" ->
  processReceivedChar LF m =
    (Nothing,
     {| state_ := state_ m; currentLine_ := [];
        tempSeries_ := tempSeries_ m; series_ := series_ m |}).
Proof.
  intros Hs Hne. rewrite process_LF, (handle_star_text _ _ Hs Hne).
  reflexivity.
Qed.

Lemma star_text_line_ignored_witness :
  processReceivedChar LF
    (with_line (lit "* AVCC = 5.0") ReceivingSeries series_2 [series_1]) =
  (Nothing, with_line [] ReceivingSeries series_2 [series_1]).
Proof.
  apply (star_text_line_ignored
           (with_line (lit "* AVCC = 5.0") ReceivingSeries series_2 [series_1])).
  - vm_compute. reflexivity.
  - vm_compute. discriminate.
Defined.

Example second_star_discards :
  snd (feed (lit "*" ++ [LF] ++ lit "1.0 0.5" ++ [LF] ++ lit "*" ++ [LF]
               ++ lit "2.0 1.0" ++ [LF] ++ lit "#" ++ [LF]) initial)
  = with_line [] Idle emptySeries [ {| points_ := [point d_2_0 d_1_0] |} ].
Proof. vm_compute. reflexivity. Qed.

(** ** The store *)

Lemma removelast_length {A : Type} (l : list A) :
  length (removelast l) = length l - 1.
Proof.
  induction l as [|a [|b l] IH]; try reflexivity.
  change (removelast (a :: b :: l)) with (a :: removelast (b :: l)).
  simpl length in *. rewrite IH. lia.
Qed.

(** C7: [removeLastSeries] on a manager without completed series changes
    nothing; on a manager with [N >= 1] completed series it removes the
    series added last: [seriesCount] goes from [N] to [N-1], the first [N-1]
    series are unchanged, and so is the rest of the manager. *)
Theorem removeLastSeries_pops_last (m : MeasurementDataManager) :
  (seriesCount m = 0 -> removeLastSeries m = m) /\
  (forall N, 1 <= N -> seriesCount m = N ->
     seriesCount (removeLastSeries m) = N - 1 /\
     series_ (removeLastSeries m) = firstn (N - 1) (series_ m) /\
     (exists s, series_ m = series_ (removeLastSeries m) ++ [s]) /\
     state_ (removeLastSeries m) = state_ m /\
     currentLine_ (removeLastSeries m) = currentLine_ m /\
     tempSeries_ (removeLastSeries m) = tempSeries_ m).
Proof.
  unfold seriesCount, removeLastSeries. split.
  - destruct (series_ m); [reflexivity | discriminate].
  - intros N HN Hlen.
    destruct (series_ m) as [|s ss] eqn:E; [simpl in Hlen; lia|].
    cbn [series_ state_ currentLine_ tempSeries_]. unfold pop_back.
    assert (Hne : s :: ss <> []) by discriminate.
    destruct (exists_last Hne) as (front & l & Hl).
    rewrite Hl in *. rewrite removelast_last.
    rewrite length_app in Hlen. simpl in Hlen.
    repeat split.
    + lia.
    + replace (N - 1) with (length front + 0) by lia.
      rewrite firstn_app_2. simpl. rewrite app_nil_r. reflexivity.
    + exists l. reflexivity.
Qed.

Lemma removeLastSeries_pops_last_witness :
  let m := with_line [] Idle emptySeries [series_1; series_2] in
  seriesCount (removeLastSeries m) = 1 /\
  series_ (removeLastSeries m) = [series_1].
Proof.
  cbv zeta.
  destruct (proj2 (removeLastSeries_pops_last
              (with_line [] Idle emptySeries [series_1; series_2]))
              2 (le_S 1 1 (le_n 1)) eq_refl) as (Hc & Hs & _).
  split; [exact Hc | exact Hs].
Defined.

(** C8: [series(index)] with [index < seriesCount()] returns the series at
    that position of the completed collection; with
    [index >= seriesCount()] it fails with [OutOfRange].  It is a query: no
    manager is produced, the store is the one given. *)
Theorem series_at_index (index : nat) (m : MeasurementDataManager) :
  (index < seriesCount m ->
   exists s, series index m = inl s /\ nth_error (series_ m) index = Some s) /\
  (seriesCount m <= index -> series index m = inr OutOfRange).
Proof.
  unfold series, seriesCount. split; intros H.
  - destruct (nth_error (series_ m) index) as [s|] eqn:E.
    + exists s. split; reflexivity.
    + apply nth_error_None in E. lia.
  - apply nth_error_None in H. rewrite H. reflexivity.
Qed.

Lemma series_at_index_witness :
  let m := with_line [] Idle emptySeries [series_1; series_2] in
  (exists s, series 1 m = inl s /\ nth_error (series_ m) 1 = Some s) /\
  series 2 m = inr OutOfRange.
Proof.
  cbv zeta. split.
  - apply (proj1 (series_at_index 1
             (with_line [] Idle emptySeries [series_1; series_2]))).
    apply le_n.
  - apply (proj2 (series_at_index 2
             (with_line [] Idle emptySeries [series_1; series_2]))).
    apply le_n.
Defined.

(** ** The invariant of the completed collection *)

Lemma parseDataLine_frame (line : std_string) (m : MeasurementDataManager) :
  state_ (parseDataLine line m) = state_ m /\
  currentLine_ (parseDataLine line m) = currentLine_ m /\
  series_ (parseDataLine line m) = series_ m.
Proof.
  unfold parseDataLine.
  destruct (extract_two line) as [[x y]|]; auto.
Qed.

(** A line either leaves the completed collection as it is, or is the [#]
    that moves the non-empty temporary series to its end. *)
Lemma handle_series_step (rawLine : std_string) (m : MeasurementDataManager) :
  let r := fst (handleCompletedLine rawLine m) in
  let m' := snd (handleCompletedLine rawLine m) in
  (r = Nothing /\ series_ m' = series_ m) \/
  (r = SeriesCompleted /\ state_ m = ReceivingSeries /\
   nonempty_series (tempSeries_ m) /\
   series_ m' = series_ m ++ [tempSeries_ m] /\
   tempSeries_ m' = emptySeries /\ state_ m' = Idle).
Proof.
  cbv zeta. unfold handleCompletedLine, nonempty_series, empty, points.
  destruct (trim rawLine) as [|c line]; [left; auto|].
  destruct (string_eqb (c :: line) (lit "*")); [left; auto|].
  destruct (starts_with_star (c :: line) && negb false); [left; auto|].
  destruct (string_eqb (c :: line) (lit "#")).
  - destruct (state_ m) eqn:Es; [left; auto|].
    destruct (points_ (tempSeries_ m)) as [|p ps] eqn:Ep; [left; auto|].
    right. simpl. repeat split; try reflexivity. discriminate.
  - destruct (state_ m); [left; auto|].
    left. simpl. split; [reflexivity|]. apply parseDataLine_frame.
Qed.

Lemma process_series_step (c : ascii) (m : MeasurementDataManager) :
  let r := fst (processReceivedChar c m) in
  let m' := snd (processReceivedChar c m) in
  (r = Nothing /\ series_ m' = series_ m) \/
  (r = SeriesCompleted /\ state_ m = ReceivingSeries /\
   nonempty_series (tempSeries_ m) /\
   series_ m' = series_ m ++ [tempSeries_ m] /\
   tempSeries_ m' = emptySeries /\ state_ m' = Idle).
Proof.
  cbv zeta. unfold processReceivedChar.
  destruct (Ascii.eqb c LF).
  - pose proof (handle_series_step (currentLine_ m) m) as H. cbv zeta in H.
    destruct (handleCompletedLine (currentLine_ m) m) as [r m']. exact H.
  - destruct (negb (Ascii.eqb c CR)); left; auto.
Qed.

Lemma removelast_Forall {A : Type} (P : A -> Prop) (l : list A) :
  Forall P l -> Forall P (removelast l).
Proof.
  induction 1 as [|a l Ha Hl IH]; [constructor|].
  destruct l as [|b l]; [constructor|].
  change (removelast (a :: b :: l)) with (a :: removelast (b :: l)).
  constructor; assumption.
Qed.

Lemma perform_keeps_nonempty (m : MeasurementDataManager) (op : Operation) :
  Forall nonempty_series (series_ m) ->
  Forall nonempty_series (series_ (perform m op)).
Proof.
  intros H. destruct op as [c| |]; simpl.
  - destruct (process_series_step c m) as [[_ E] | (_ & _ & Hne & E & _)];
      rewrite E; [exact H|].
    apply Forall_app. split; [exact H|]. constructor; [exact Hne | constructor].
  - unfold removeLastSeries. destruct (series_ m) as [|s ss] eqn:E;
      [rewrite E; constructor|].
    cbn [series_]. apply removelast_Forall. exact H.
  - constructor.
Qed.

Lemma run_keeps_nonempty (ops : list Operation) (m : MeasurementDataManager) :
  Forall nonempty_series (series_ m) ->
  Forall nonempty_series (series_ (fold_left perform ops m)).
Proof.
  revert m. induction ops as [|op ops IH]; intros m H; simpl.
  - exact H.
  - apply IH. apply perform_keeps_nonempty. exact H.
Qed.

(** C5: after any run of operations on the initial manager, every series of
    the completed collection is non-empty, and the collection takes up the
    temporary series only when it is finalized: a call of
    [processReceivedChar] either leaves the completed collection as it is,
    or returns [SeriesCompleted], having moved the temporary series, which
    then holds at least one point, to the end of the collection and started
    a fresh empty temporary series. *)
Theorem completed_series_invariant (ops : list Operation) :
  let m := after ops in
  Forall nonempty_series (series_ m) /\
  forall c,
    let r := fst (processReceivedChar c m) in
    let m' := snd (processReceivedChar c m) in
    (r = Nothing /\ series_ m' = series_ m) \/
    (r = SeriesCompleted /\ state_ m = ReceivingSeries /\
     nonempty_series (tempSeries_ m) /\
     series_ m' = series_ m ++ [tempSeries_ m] /\
     tempSeries_ m' = emptySeries /\ state_ m' = Idle).
Proof.
  cbv zeta. split.
  - apply run_keeps_nonempty. constructor.
  - intros c. apply process_series_step.
Qed.

(** ** White space, tokens and extraction *)

Lemma isspace_stop (c : ascii) :
  isspace c = true ->
  Extract.is_sign c = false /\ isdigit c = false /\
  Extract.is_point c = false /\ Extract.is_e c = false /\
  Ascii.eqb c "*" = false /\ Ascii.eqb c "#" = false.
Proof.
  destruct c as [[] [] [] [] [] [] [] []]; vm_compute; intros H;
    try discriminate H; repeat split.
Qed.

Module ExtractFacts.
Import Extract.

Lemma accept_space (f : field) (c : ascii) :
  isspace c = true -> accept f c = None.
Proof.
  intros H. destruct (isspace_stop c H) as (Hs & Hd & Hp & He & _).
  unfold accept. rewrite Hs, Hd, Hp, He, andb_false_r. reflexivity.
Qed.

(** The scan of a string followed by white space is the scan of the
    string: the white space and what follows it stay unread. *)
Lemma scan_before_space (t : std_string) (c : ascii) (r : std_string) :
  isspace c = true ->
  forall f, scan f (t ++ c :: r) =
            (fst (scan f t), snd (scan f t) ++ c :: r).
Proof.
  intros H. induction t as [|a t IH]; intros f; simpl.
  - rewrite (accept_space f c H). reflexivity.
  - destruct (accept f a) as [f'|]; [apply IH | reflexivity].
Qed.

Lemma scan_field_before_space (t : std_string) (c : ascii) (r : std_string) :
  isspace c = true ->
  scan_field (t ++ c :: r) =
    (fst (scan_field t), snd (scan_field t) ++ c :: r).
Proof.
  intros H. destruct t as [|a t]; simpl.
  - destruct (isspace_stop c H) as (-> & _).
    rewrite (accept_space _ c H). reflexivity.
  - destruct (is_sign a).
    + apply scan_before_space. exact H.
    + apply (scan_before_space (a :: t)). exact H.
Qed.

Lemma skipws_all_space (ws s : std_string) :
  all_space ws -> skipws (ws ++ s) = skipws s.
Proof.
  unfold all_space. induction ws as [|c ws IH]; simpl; intros H.
  - reflexivity.
  - apply andb_prop in H. destruct H as [-> H]. apply IH. exact H.
Qed.

Lemma skipws_no_space (t s : std_string) :
  t <> [] -> no_space t -> skipws (t ++ s) = t ++ s.
Proof.
  unfold no_space. destruct t as [|c t]; [congruence|]. simpl. intros _ H.
  apply andb_prop in H. destruct H as [H _].
  destruct (isspace c); [discriminate | reflexivity].
Qed.

End ExtractFacts.

(** White space in front of a numeral is skipped. *)
Lemma extract_skips_space (ws s : std_string) :
  all_space ws -> extract_double (ws ++ s) = extract_double s.
Proof.
  intros H. unfold extract_double, Extract.extract_double.
  rewrite ExtractFacts.skipws_all_space by exact H. reflexivity.
Qed.

(** Extraction from a token followed by white space is the extraction from
    the token alone; the white space and what follows stay unread. *)
Lemma extract_before_space (t : std_string) (c : ascii) (r : std_string) :
  t <> [] -> no_space t -> isspace c = true ->
  extract_double (t ++ c :: r) =
    match extract_double t with
    | Some (v, rest) => Some (v, rest ++ c :: r)
    | None => None
    end.
Proof.
  intros Hne Hns Hc. unfold extract_double, Extract.extract_double.
  rewrite (ExtractFacts.skipws_no_space t (c :: r) Hne Hns).
  pose proof (ExtractFacts.skipws_no_space t [] Hne Hns) as E.
  rewrite app_nil_r in E. rewrite E.
  destruct t as [|a t]; [congruence|]. cbn [app].
  change (a :: t ++ c :: r) with ((a :: t) ++ c :: r).
  rewrite (ExtractFacts.scan_field_before_space (a :: t) c r Hc).
  destruct (Extract.scan_field (a :: t)) as [f rest]. cbn [fst snd].
  destruct (Extract.complete f && Double.is_finite (Extract.value f));
    reflexivity.
Qed.

Lemma extract_star (s : std_string) : extract_double ("*"%char :: s) = None.
Proof. reflexivity. Qed.

Lemma extract_hash (s : std_string) : extract_double ("#"%char :: s) = None.
Proof. reflexivity. Qed.

Lemma extract_nil : extract_double [] = None.
Proof. reflexivity. Qed.

Lemma tokens_nonspace_head (c : ascii) (s : std_string) :
  isspace c = false -> tokens (c :: s) <> [].
Proof.
  intros H. simpl. rewrite H. destruct s as [|c' s]; [discriminate|].
  destruct (isspace c'); [discriminate|].
  destruct (tokens (c' :: s)); discriminate.
Qed.

Lemma tokens_all_space (s : std_string) : tokens s = [] -> all_space s.
Proof.
  unfold all_space. induction s as [|c s IH]; [reflexivity|]. intros H.
  destruct (isspace c) eqn:E.
  - simpl in H |- *. rewrite E in H |- *. apply IH. exact H.
  - destruct (tokens_nonspace_head c s E H).
Qed.

(** The first token of a line: white space, the token, and a rest that is
    empty or begins with white space and holds the other tokens. *)
Lemma tokens_cons (s t : std_string) (more : list std_string) :
  tokens s = t :: more ->
  exists ws rest,
    s = ws ++ t ++ rest /\ all_space ws /\ t <> [] /\ no_space t /\
    starts_blank rest /\ tokens rest = more.
Proof.
  revert t more. induction s as [|c s IH]; intros t more H; [discriminate|].
  destruct (isspace c) eqn:Ec.
  - simpl in H. rewrite Ec in H.
    destruct (IH _ _ H) as (ws & rest & -> & Hws & Ht & Hns & Hb & Hm).
    exists (c :: ws), rest. repeat split; try assumption.
    unfold all_space. simpl. rewrite Ec. exact Hws.
  - destruct s as [|c' s].
    + simpl in H. rewrite Ec in H. injection H as <- <-.
      exists [], []. unfold no_space. simpl. rewrite Ec.
      repeat split; discriminate.
    + destruct (isspace c') eqn:Ec'.
      * assert (Hstep : tokens (c :: c' :: s) = [c] :: tokens (c' :: s)).
        { cbn [tokens]. rewrite Ec, Ec'. reflexivity. }
        rewrite Hstep in H. injection H as <- <-.
        exists [], (c' :: s). unfold no_space, starts_blank.
        cbn [forallb app]. rewrite Ec.
        repeat split; try assumption; discriminate.
      * assert (Hstep : tokens (c :: c' :: s) =
                  match tokens (c' :: s) with
                  | t' :: ts => (c :: t') :: ts
                  | [] => [[c]]
                  end).
        { cbn [tokens]. rewrite Ec, Ec'. reflexivity. }
        rewrite Hstep in H.
        destruct (tokens (c' :: s)) as [|t' ts] eqn:Et.
        { destruct (tokens_nonspace_head c' s Ec' Et). }
        injection H as <- <-.
        destruct (IH _ _ eq_refl) as (ws & rest & E & Hws & Ht & Hns & Hb & Hm).
        destruct ws as [|w ws].
        -- simpl in E. exists [], rest. rewrite E.
           unfold no_space in *. simpl. rewrite Ec.
           repeat split; try assumption. discriminate.
        -- simpl in E. injection E as <- _.
           unfold all_space in Hws. simpl in Hws. rewrite Ec' in Hws.
           discriminate.
Qed.

Lemma token_value_extract (t : std_string) (v : double) :
  token_value t = Some v -> extract_double t = Some (v, []).
Proof.
  unfold token_value.
  destruct (extract_double t) as [[w [|c rest]]|]; intros H;
    try discriminate H.
  injection H as ->. reflexivity.
Qed.

(** A token that parses, followed by nothing or by white space: its number
    is extracted and what follows the token is left unread. *)
Lemma extract_token (t rest : std_string) (v : double) :
  t <> [] -> no_space t -> starts_blank rest -> token_value t = Some v ->
  extract_double (t ++ rest) = Some (v, rest).
Proof.
  intros Hne Hns Hb Hv. apply token_value_extract in Hv.
  destruct rest as [|c r].
  - rewrite app_nil_r. exact Hv.
  - rewrite (extract_before_space t c r Hne Hns Hb), Hv. reflexivity.
Qed.

(** Two tokens that parse, at the head of a line: [iss >> x >> y] reads
    their numbers, whatever follows them. *)
Lemma extract_two_tokens (line t1 t2 : std_string) (more : list std_string)
    (x y : double) :
  tokens line = t1 :: t2 :: more ->
  token_value t1 = Some x -> token_value t2 = Some y ->
  extract_two line = Some (x, y).
Proof.
  intros Ht Hx Hy.
  destruct (tokens_cons _ _ _ Ht)
    as (ws1 & rest1 & -> & Hws1 & Hne1 & Hns1 & Hb1 & Ht').
  destruct (tokens_cons _ _ _ Ht')
    as (ws2 & rest2 & -> & Hws2 & Hne2 & Hns2 & Hb2 & _).
  unfold extract_two.
  rewrite (extract_skips_space ws1 _ Hws1).
  rewrite (extract_token t1 _ x Hne1 Hns1 Hb1 Hx).
  rewrite (extract_skips_space ws2 _ Hws2).
  rewrite (extract_token t2 _ y Hne2 Hns2 Hb2 Hy).
  reflexivity.
Qed.

Lemma first_two_values_extract (line : std_string) (x y : double) :
  first_two_values line = Some (x, y) -> extract_two line = Some (x, y).
Proof.
  unfold first_two_values.
  destruct (tokens line) as [|t1 [|t2 more]] eqn:Ht; try discriminate.
  destruct (token_value t1) as [x'|] eqn:Hx; [|discriminate].
  destruct (token_value t2) as [y'|] eqn:Hy; [|discriminate].
  intros H. injection H as <- <-.
  exact (extract_two_tokens _ _ _ _ _ _ Ht Hx Hy).
Qed.

(** A line from which two numbers are extracted is none of the lines the
    manager treats before the data lines. *)
Lemma extract_two_data_line (line : std_string) (x y : double) :
  extract_two line = Some (x, y) ->
  exists c l, line = c :: l /\ Ascii.eqb c "*" = false /\
              string_eqb line (lit "*") = false /\
              string_eqb line (lit "#") = false.
Proof.
  unfold extract_two. intros H.
  destruct (extract_double line) as [[x' rest]|] eqn:E; [|discriminate].
  destruct line as [|c l]; [discriminate E|].
  exists c, l. split; [reflexivity|].
  destruct (Ascii.eqb c "*") eqn:Ec.
  - apply Ascii.eqb_eq in Ec. subst c. discriminate E.
  - split; [reflexivity|]. split; apply string_eqb_neq; intros Heq.
    + injection Heq as -> _. discriminate Ec.
    + injection Heq as -> _. discriminate E.
Qed.

Lemma handle_data_line (rawLine : std_string) (m : MeasurementDataManager)
    (x y : double) :
  state_ m = ReceivingSeries ->
  extract_two (trim rawLine) = Some (x, y) ->
  handleCompletedLine rawLine m = (Nothing, with_point x y m).
Proof.
  intros Hs H. unfold handleCompletedLine, parseDataLine, with_point.
  destruct (extract_two_data_line _ _ _ H) as (c & l & E & Hc & H1 & H2).
  rewrite H, H1, H2, Hs, E. cbn [starts_with_star]. rewrite Hc.
  reflexivity.
Qed.

Lemma handle_unparsed_line (rawLine : std_string) (m : MeasurementDataManager) :
  trim rawLine <> lit "*" -> trim rawLine <> lit "#" ->
  extract_two (trim rawLine) = None ->
  handleCompletedLine rawLine m = (Nothing, m).
Proof.
  intros H1 H2 H. unfold handleCompletedLine, parseDataLine.
  rewrite H, (string_eqb_neq _ _ H1), (string_eqb_neq _ _ H2).
  destruct (trim rawLine) as [|c l]; [reflexivity|].
  destruct (starts_with_star (c :: l)); [reflexivity|].
  destruct (isReceiving (state_ m)); reflexivity.
Qed.

(** ** [trim] *)

Lemma trim_start_spaces (ws rest : std_string) (n : nat) :
  all_space ws -> trim_start (ws ++ rest) n = trim_start rest (n + length ws).
Proof.
  unfold all_space. revert n. induction ws as [|c ws IH]; intros n H; simpl.
  - rewrite Nat.add_0_r. reflexivity.
  - simpl in H. apply andb_prop in H. destruct H as [-> H].
    rewrite (IH (S n) H). f_equal. lia.
Qed.

Lemma trim_start_all_space (ws : std_string) (n : nat) :
  all_space ws -> trim_start ws n = n + length ws.
Proof.
  intros H. pose proof (trim_start_spaces ws [] n H) as E.
  rewrite app_nil_r in E. exact E.
Qed.

Lemma trim_start_stop (rest : std_string) (n : nat) :
  head_nonblank rest -> trim_start rest n = n.
Proof. destruct rest as [|c rest]; simpl; [|intros ->]; reflexivity. Qed.

Lemma all_space_nth (ws : std_string) (k : nat) :
  all_space ws -> k < length ws -> isspace (nth k ws zero) = true.
Proof.
  unfold all_space. intros H Hk.
  apply (proj1 (forallb_forall isspace ws) H). apply nth_In. exact Hk.
Qed.

(** The second loop over a string that ends with white space after a
    character which is not white space: [end] stops behind that character. *)
Lemma trim_end_spaces (pre ws : std_string) (l : ascii) (start k : nat) :
  all_space ws -> isspace l = false -> start <= length pre ->
  k <= length ws ->
  trim_end ((pre ++ [l]) ++ ws) start (length (pre ++ [l]) + k)
  = length (pre ++ [l]).
Proof.
  intros Hws Hl Hstart. rewrite last_length. induction k as [|k IH]; intros Hk.
  - rewrite Nat.add_0_r. cbn [trim_end].
    replace (start <? S (length pre))%nat with true
      by (symmetry; apply Nat.ltb_lt; lia).
    rewrite <- app_assoc. cbn [app]. rewrite nth_middle, Hl. reflexivity.
  - replace (S (length pre) + S k) with (S (S (length pre) + k)) by lia.
    cbn [trim_end].
    replace (start <? S (S (length pre) + k))%nat with true
      by (symmetry; apply Nat.ltb_lt; lia).
    rewrite app_nth2 by (rewrite last_length; lia).
    rewrite last_length.
    replace (S (length pre) + k - S (length pre)) with k by lia.
    rewrite (all_space_nth ws k Hws) by lia.
    cbn [andb]. apply IH. lia.
Qed.

(** [trim] takes the white space off both ends. *)
Lemma trim_sandwich (ws1 body ws2 : std_string) :
  all_space ws1 -> all_space ws2 -> head_nonblank body -> last_nonblank body ->
  trim (ws1 ++ body ++ ws2) = body.
Proof.
  intros H1 H2 Hh Hl. unfold trim, substr.
  rewrite (trim_start_spaces ws1 _ 0 H1). cbn [Nat.add].
  destruct body as [|c b].
  - cbn [app]. rewrite (trim_start_all_space ws2 _ H2).
    replace (trim_end (ws1 ++ ws2) (length ws1 + length ws2)
               (length (ws1 ++ ws2)))
      with (length ws1 + length ws2).
    + rewrite Nat.sub_diag. reflexivity.
    + rewrite length_app. destruct (length ws1 + length ws2) as [|n] eqn:E;
        [reflexivity|].
      cbn [trim_end]. rewrite Nat.ltb_irrefl. reflexivity.
  - rewrite (trim_start_stop ((c :: b) ++ ws2) _ Hh).
    assert (Hne : c :: b <> []) by discriminate.
    destruct (exists_last Hne) as (pre & l & E). rewrite E in *.
    pose proof (Hl pre l eq_refl) as Hsp.
    replace (ws1 ++ (pre ++ [l]) ++ ws2) with (((ws1 ++ pre) ++ [l]) ++ ws2)
      by (repeat rewrite <- app_assoc; reflexivity).
    replace (length (((ws1 ++ pre) ++ [l]) ++ ws2))
      with (length ((ws1 ++ pre) ++ [l]) + length ws2)
      by (rewrite (length_app ((ws1 ++ pre) ++ [l])); reflexivity).
    rewrite (trim_end_spaces (ws1 ++ pre) ws2 l (length ws1) (length ws2)
               H2 Hsp) by (rewrite ?length_app; lia).
    replace (((ws1 ++ pre) ++ [l]) ++ ws2) with (ws1 ++ (pre ++ [l]) ++ ws2)
      by (repeat rewrite <- app_assoc; reflexivity).
    rewrite skipn_app, skipn_all, Nat.sub_diag. cbn [skipn app].
    replace (length ((ws1 ++ pre) ++ [l]) - length ws1)
      with (length (pre ++ [l]))
      by (repeat rewrite length_app; simpl; lia).
    rewrite firstn_app, firstn_all, Nat.sub_diag. cbn [firstn].
    apply app_nil_r.
Qed.

(** Every string is white space, a string that neither begins nor ends
    with white space, and white space. *)
Lemma blank_ends (s : std_string) :
  exists ws1 body ws2,
    s = ws1 ++ body ++ ws2 /\ all_space ws1 /\ all_space ws2 /\
    head_nonblank body /\ last_nonblank body.
Proof.
  induction s as [|c s (ws1 & body & ws2 & -> & H1 & H2 & Hh & Hl)].
  - exists [], [], []. repeat split. intros [|a pre] l E; discriminate E.
  - destruct (isspace c) eqn:Ec.
    + exists (c :: ws1), body, ws2. repeat split; try assumption.
      unfold all_space. simpl. rewrite Ec. exact H1.
    + destruct body as [|b body].
      * exists [], [c], (ws1 ++ ws2). repeat split.
        -- unfold all_space. rewrite forallb_app.
           apply andb_true_intro. split; assumption.
        -- exact Ec.
        -- intros [|a pre] l E.
           ++ injection E as <-. exact Ec.
           ++ injection E as _ E. destruct pre; discriminate E.
      * exists [], (c :: ws1 ++ b :: body), ws2. repeat split.
        -- simpl. rewrite <- app_assoc. reflexivity.
        -- exact H2.
        -- exact Ec.
        -- intros pre l E.
           assert (Hne : b :: body <> []) by discriminate.
           destruct (exists_last Hne) as (pre' & l' & E'). rewrite E' in *.
           apply (Hl pre' l). f_equal.
           change (c :: ws1 ++ pre' ++ [l'])
             with ((c :: ws1) ++ pre' ++ [l']) in E.
           rewrite app_assoc in E.
           apply app_inj_tail in E. destruct E as [_ ->]. reflexivity.
Qed.

Lemma trim_blank_ends (s : std_string) :
  exists ws1 ws2, s = ws1 ++ trim s ++ ws2 /\ all_space ws1 /\ all_space ws2.
Proof.
  destruct (blank_ends s) as (ws1 & body & ws2 & E & H1 & H2 & Hh & Hl).
  exists ws1, ws2. rewrite E at 2.
  rewrite (trim_sandwich _ _ _ H1 H2 Hh Hl). auto.
Qed.

Lemma tokens_of_spaces (ws : std_string) : all_space ws -> tokens ws = [].
Proof.
  unfold all_space. induction ws as [|c ws IH]; [reflexivity|]. simpl.
  intros H. apply andb_prop in H. destruct H as [-> H]. apply IH. exact H.
Qed.

Lemma tokens_skip_space (ws s : std_string) :
  all_space ws -> tokens (ws ++ s) = tokens s.
Proof.
  unfold all_space. induction ws as [|c ws IH]; [reflexivity|]. simpl.
  intros H. apply andb_prop in H. destruct H as [-> H]. apply IH. exact H.
Qed.

Lemma tokens_trailing_space (s ws : std_string) :
  all_space ws -> tokens (s ++ ws) = tokens s.
Proof.
  intros H. induction s as [|c s IH].
  - apply tokens_of_spaces. exact H.
  - cbn [app tokens]. destruct (isspace c); [exact IH|].
    destruct s as [|c' s].
    + cbn [app]. destruct ws as [|w ws]; [reflexivity|].
      rewrite (tokens_of_spaces _ H).
      unfold all_space in H. simpl in H. apply andb_prop in H.
      destruct H as [-> _]. reflexivity.
    + cbn [app] in *. rewrite IH. reflexivity.
Qed.

(** Trimming a line does not change its tokens. *)
Lemma tokens_trim (s : std_string) : tokens (trim s) = tokens s.
Proof.
  destruct (trim_blank_ends s) as (ws1 & ws2 & E & H1 & H2).
  rewrite E at 2.
  rewrite (tokens_skip_space _ _ H1), (tokens_trailing_space _ _ H2).
  reflexivity.
Qed.

Lemma skipws_of_spaces (ws : std_string) :
  all_space ws -> Extract.skipws ws = [].
Proof.
  intros H. pose proof (ExtractFacts.skipws_all_space ws [] H) as E.
  rewrite app_nil_r in E. exact E.
Qed.

Lemma extract_of_spaces (ws : std_string) :
  all_space ws -> extract_double ws = None.
Proof.
  intros H. unfold extract_double, Extract.extract_double.
  rewrite (skipws_of_spaces ws H). reflexivity.
Qed.

(** Extraction at the head of a line is extraction from its first token;
    what the token leaves unread is followed by the rest of the line. *)
Lemma extract_first_token (line t : std_string) (more : list std_string) :
  tokens line = t :: more ->
  exists rest, starts_blank rest /\ tokens rest = more /\
    extract_double line =
      match extract_double t with
      | Some (v, unread) => Some (v, unread ++ rest)
      | None => None
      end.
Proof.
  intros Ht.
  destruct (tokens_cons _ _ _ Ht) as (ws & rest & -> & Hws & Hne & Hns & Hb & Hm).
  exists rest. split; [exact Hb|]. split; [exact Hm|].
  rewrite (extract_skips_space ws _ Hws).
  destruct rest as [|c r].
  - rewrite app_nil_r.
    destruct (extract_double t) as [[v unread]|]; [|reflexivity].
    rewrite app_nil_r. reflexivity.
  - apply (extract_before_space t c r Hne Hns Hb).
Qed.

(** Lines from which [iss >> x >> y] does not read two numbers. *)
Lemma extract_two_first_fails (line t : std_string) (more : list std_string) :
  tokens line = t :: more -> extract_double t = None ->
  extract_two line = None.
Proof.
  intros Ht Hx. destruct (extract_first_token _ _ _ Ht) as (rest & _ & _ & E).
  unfold extract_two. rewrite E, Hx. reflexivity.
Qed.

Lemma extract_two_single_number (line t : std_string) (x : double) :
  tokens line = [t] -> token_value t = Some x -> extract_two line = None.
Proof.
  intros Ht Hx. destruct (extract_first_token _ _ _ Ht) as (rest & _ & Hm & E).
  unfold extract_two.
  rewrite E, (token_value_extract _ _ Hx). cbn [app].
  rewrite (extract_of_spaces rest (tokens_all_space _ Hm)). reflexivity.
Qed.

Lemma extract_two_second_fails (line t1 t2 : std_string)
    (more : list std_string) (x : double) :
  tokens line = t1 :: t2 :: more ->
  token_value t1 = Some x -> extract_double t2 = None ->
  extract_two line = None.
Proof.
  intros Ht Hx Hy.
  destruct (extract_first_token _ _ _ Ht) as (rest & _ & Hm & E).
  destruct (extract_first_token _ _ _ Hm) as (rest' & _ & _ & E').
  unfold extract_two.
  rewrite E, (token_value_extract _ _ Hx). cbn [app].
  rewrite E', Hy. reflexivity.
Qed.

(** ** Data lines *)

Example trailing_text :
  handleCompletedLine (lit "1.0 2.0 garbage")
    (with_line [] ReceivingSeries emptySeries [])
  = (Nothing,
     with_line [] ReceivingSeries {| points_ := [point d_1_0 d_2_0] |} []).
Proof. vm_compute. reflexivity. Qed.

(** C9, as stated, fails in its second half: the line [1.0-2.0] is a single
    token, which does not parse as a number, so that its first two tokens do
    not both parse as numbers; but [iss >> x >> y] reads [1.0] and then
    [-2.0] from it, and the point [(1.0, -2.0)] is appended. *)
Lemma single_token_two_numerals :
  tokens (trim (lit "1.0-2.0")) = [lit "1.0-2.0"] /\
  token_value (lit "1.0-2.0") = None /\
  first_two_values (trim (lit "1.0-2.0")) = None /\
  handleCompletedLine (lit "1.0-2.0")
    (with_line [] ReceivingSeries emptySeries [])
  = (Nothing,
     with_line [] ReceivingSeries {| points_ := [point d_1_0 d_m2_0] |} []) /\
  snd (handleCompletedLine (lit "1.0-2.0")
         (with_line [] ReceivingSeries emptySeries []))
  <> with_line [] ReceivingSeries emptySeries [].
Proof.
  split; [vm_compute; reflexivity|].
  split; [vm_compute; reflexivity|].
  split; [vm_compute; reflexivity|].
  split; [vm_compute; reflexivity|].
  vm_compute. discriminate.
Qed.

(** C9, amended: in state [ReceivingSeries], a trimmed line whose first two
    white-space-separated tokens parse as floating-point numbers appends the
    point made of these two numbers, whatever text follows them.  A trimmed
    line other than [*] and [#] from which two numbers cannot be extracted
    one after the other, the second starting where the first stopped,
    appends nothing and changes no state; this is so when its first token
    does not begin with a number, when it is a single token that parses as
    a number, and when its first token parses as a number and its second
    does not begin with one. *)
Theorem data_line_appends (rawLine : std_string) (m : MeasurementDataManager) :
  state_ m = ReceivingSeries ->
  let line := trim rawLine in
  (forall x y, first_two_values line = Some (x, y) ->
     handleCompletedLine rawLine m = (Nothing, with_point x y m)) /\
  (line <> lit "*" -> line <> lit "#" ->
     (extract_two line = None \/
      (exists t more, tokens line = t :: more /\ extract_double t = None) \/
      (exists t x, tokens line = [t] /\ token_value t = Some x) \/
      (exists t1 t2 more x, tokens line = t1 :: t2 :: more /\
         token_value t1 = Some x /\ extract_double t2 = None)) ->
     handleCompletedLine rawLine m = (Nothing, m)).
Proof.
  intros Hs line. split.
  - intros x y H. apply handle_data_line; [exact Hs|].
    apply first_two_values_extract. exact H.
  - intros H1 H2 H. apply handle_unparsed_line; try assumption.
    destruct H as [H | [(t & more & Ht & Hx)
                      | [(t & x & Ht & Hx)
                      | (t1 & t2 & more & x & Ht & Hx & Hy)]]].
    + exact H.
    + exact (extract_two_first_fails _ _ _ Ht Hx).
    + exact (extract_two_single_number _ _ _ Ht Hx).
    + exact (extract_two_second_fails _ _ _ _ _ Ht Hx Hy).
Qed.

Lemma data_line_appends_witness :
  let m := with_line [] ReceivingSeries emptySeries [] in
  handleCompletedLine (lit "1.0 2.0 garbage") m =
    (Nothing, with_point d_1_0 d_2_0 m) /\
  handleCompletedLine (lit "1.0 volts") m = (Nothing, m).
Proof.
  cbv zeta.
  destruct (data_line_appends (lit "1.0 2.0 garbage")
              (with_line [] ReceivingSeries emptySeries []) eq_refl)
    as [Ha _].
  destruct (data_line_appends (lit "1.0 volts")
              (with_line [] ReceivingSeries emptySeries []) eq_refl)
    as [_ Hb].
  split.
  - apply Ha. vm_compute. reflexivity.
  - apply Hb.
    + vm_compute. discriminate.
    + vm_compute. discriminate.
    + left. vm_compute. reflexivity.
Defined.

(** ** Feeding bytes *)

Lemma feed_app (a b : std_string) (m : MeasurementDataManager) :
  feed (a ++ b) m =
    (fst (feed a m) ++ fst (feed b (snd (feed a m))),
     snd (feed b (snd (feed a m)))).
Proof.
  revert m. induction a as [|c a IH]; intros m; cbn [app feed].
  - cbn [fst snd app]. destruct (feed b m). reflexivity.
  - destruct (processReceivedChar c m) as [r m']. rewrite IH.
    destruct (feed a m') as [rs m'']. cbn [fst snd].
    destruct (feed b m'') as [rs' m''']. reflexivity.
Qed.

(** The bytes of a line, before its line feed: they are put in the line
    buffer, the carriage returns apart, and nothing else changes. *)
Lemma feed_line_bytes (l : std_string) (m : MeasurementDataManager) :
  existsb (Ascii.eqb LF) l = false ->
  feed l m =
    (repeat Nothing (length l),
     {| state_ := state_ m; currentLine_ := currentLine_ m ++ drop_cr l;
        tempSeries_ := tempSeries_ m; series_ := series_ m |}).
Proof.
  revert m. induction l as [|c l IH]; intros m H.
  - cbn [feed drop_cr filter length repeat]. rewrite app_nil_r.
    destruct m; reflexivity.
  - cbn [existsb] in H. apply orb_false_elim in H. destruct H as [Hc H].
    cbn [feed]. unfold processReceivedChar.
    rewrite Ascii.eqb_sym, Hc.
    cbn [drop_cr filter]. fold (drop_cr l).
    destruct (negb (Ascii.eqb c CR)); rewrite (IH _ H);
      cbn [state_ currentLine_ tempSeries_ series_ length repeat].
    + rewrite <- app_assoc. reflexivity.
    + reflexivity.
Qed.

(** A line and its line feed. *)
Lemma feed_line (l : std_string) (m : MeasurementDataManager) :
  existsb (Ascii.eqb LF) l = false -> currentLine_ m = [] ->
  feed (l ++ [LF]) m =
    (repeat Nothing (length l) ++ [fst (handleCompletedLine (drop_cr l) m)],
     let m' := snd (handleCompletedLine (drop_cr l) m) in
     {| state_ := state_ m'; currentLine_ := [];
        tempSeries_ := tempSeries_ m'; series_ := series_ m' |}).
Proof.
  intros H Hl. rewrite feed_app, (feed_line_bytes l m H). cbn [fst snd feed].
  rewrite process_LF. cbn [currentLine_ fst snd]. rewrite Hl. cbn [app].
  destruct m as [st line temp done]. cbn in Hl. subst line.
  cbn [state_ currentLine_ tempSeries_ series_].
  assert (E : forall raw cur,
    (fst (handleCompletedLine raw (with_line cur st temp done)),
     let m' := snd (handleCompletedLine raw (with_line cur st temp done)) in
     with_line [] (state_ m') (tempSeries_ m') (series_ m'))
    = (fst (handleCompletedLine raw (with_line [] st temp done)),
       let m' := snd (handleCompletedLine raw (with_line [] st temp done)) in
       with_line [] (state_ m') (tempSeries_ m') (series_ m'))).
  { intros raw cur. unfold handleCompletedLine, parseDataLine, with_line.
    destruct (trim raw) as [|c line]; [reflexivity|].
    cbn [state_ currentLine_ tempSeries_ series_].
    repeat match goal with
      | |- context [if ?b then _ else _] => destruct b
      | |- context [match extract_two ?x with _ => _ end] =>
          destruct (extract_two x) as [[? ?]|]
      end; reflexivity. }
  exact (f_equal (fun p => (repeat Nothing (length l) ++ [fst p], snd p))
           (E (drop_cr l) (drop_cr l))).
Qed.

Lemma first_two_values_trim (s : std_string) :
  first_two_values (trim s) = first_two_values s.
Proof. unfold first_two_values. rewrite tokens_trim. reflexivity. Qed.

Lemma data_line_point_spec (l : std_string) (p : MeasurementPoint) :
  data_line_point l = Some p ->
  existsb (Ascii.eqb LF) l = false /\
  first_two_values (drop_cr l) = Some (voltageVolt p, currentMilliAmp p).
Proof.
  unfold data_line_point, first_two_values.
  destruct (existsb (Ascii.eqb LF) l); [discriminate|].
  destruct (tokens (drop_cr l)) as [|t1 [|t2 [|t3 more]]]; try discriminate.
  destruct (token_value t1) as [x|]; [|discriminate].
  destruct (token_value t2) as [y|]; [|discriminate].
  intros H. injection H as <-. split; reflexivity.
Qed.

(** A data line and its line feed, in state [ReceivingSeries]: every call
    returns [Nothing], and the point of the line is appended. *)
Lemma feed_data_line (l : std_string) (p : MeasurementPoint)
    (m : MeasurementDataManager) :
  data_line_point l = Some p ->
  state_ m = ReceivingSeries -> currentLine_ m = [] ->
  feed (l ++ [LF]) m =
    (repeat Nothing (length (l ++ [LF])),
     with_point (voltageVolt p) (currentMilliAmp p) m).
Proof.
  intros Hp Hs Hl. destruct (data_line_point_spec l p Hp) as [Hlf Hv].
  rewrite (feed_line l m Hlf Hl).
  rewrite <- first_two_values_trim in Hv.
  rewrite (handle_data_line _ m _ _ Hs (first_two_values_extract _ _ _ Hv)).
  cbn [fst snd]. rewrite last_length.
  change [Nothing] with (repeat Nothing 1). rewrite <- repeat_app.
  replace (length l + 1) with (S (length l)) by lia.
  unfold with_point. cbn [state_ currentLine_ tempSeries_ series_].
  rewrite Hl. reflexivity.
Qed.

Lemma feed_data_lines (lines : list std_string) :
  forall (pts : list MeasurementPoint) (m : MeasurementDataManager),
  map data_line_point lines = map Some pts ->
  state_ m = ReceivingSeries -> currentLine_ m = [] ->
  feed (concat (map (fun l => l ++ [LF]) lines)) m =
    (repeat Nothing (length (concat (map (fun l => l ++ [LF]) lines))),
     {| state_ := ReceivingSeries; currentLine_ := [];
        tempSeries_ := {| points_ := points_ (tempSeries_ m) ++ pts |};
        series_ := series_ m |}).
Proof.
  induction lines as [|l lines IH]; intros pts m Hp Hs Hl.
  - destruct pts; [|discriminate Hp]. cbn. rewrite app_nil_r.
    destruct m as [st line [ps] done]. cbn in *. subst. reflexivity.
  - destruct pts as [|p pts]; [discriminate Hp|].
    cbn [map] in Hp. injection Hp as Hp Hps.
    cbn [map concat]. rewrite feed_app, (feed_data_line l p m Hp Hs Hl).
    cbn [fst snd].
    rewrite (IH pts (with_point (voltageVolt p) (currentMilliAmp p) m)
               Hps Hs Hl).
    cbn [fst snd]. f_equal.
    + rewrite <- repeat_app, <- length_app. reflexivity.
    + unfold with_point, addPoint.
      cbn [state_ currentLine_ tempSeries_ series_ points_].
      rewrite <- app_assoc. destruct p. reflexivity.
Qed.

(** C1: for every [N >= 1], the initial manager fed the bytes of a [*]
    line, of [N] lines each made of two white-space-separated tokens that
    parse as floating-point numbers, and of a [#] line, every line ended by
    a line feed, holds exactly one completed series, made of the [N] points
    (first token the voltage, second the current) in the order of arrival;
    every call of [processReceivedChar] returns [Nothing] but the last one,
    on the line feed of the [#] line, which returns [SeriesCompleted].  The
    tokens are those of the line as it is assembled, carriage returns
    dropped. *)
Theorem series_on_the_wire (N : nat) (lines : list std_string)
    (pts : list MeasurementPoint) :
  1 <= N -> length lines = N ->
  map data_line_point lines = map Some pts ->
  length pts = N /\
  feed (series_bytes lines) initial =
    (repeat Nothing (length (series_bytes lines) - 1) ++ [SeriesCompleted],
     {| state_ := Idle; currentLine_ := []; tempSeries_ := emptySeries;
        series_ := [ {| points_ := pts |} ] |}).
Proof.
  intros HN Hlen Hp.
  assert (Hpts : length pts = N).
  { rewrite <- Hlen, <- (length_map data_line_point), Hp.
    symmetry. apply length_map. }
  split; [exact Hpts|].
  unfold series_bytes.
  set (body := concat (map (fun l => l ++ [LF]) lines)).
  change (lit "*" ++ [LF] ++ body ++ lit "#" ++ [LF])
    with ((lit "*" ++ [LF]) ++ body ++ (lit "#" ++ [LF])).
  rewrite feed_app.
  assert (E1 : feed (lit "*" ++ [LF]) initial =
               (repeat Nothing 2, with_line [] ReceivingSeries emptySeries []))
    by (vm_compute; reflexivity).
  rewrite E1. cbn [fst snd]. rewrite feed_app.
  unfold body.
  rewrite (feed_data_lines lines pts
             (with_line [] ReceivingSeries emptySeries []) Hp eq_refl eq_refl).
  fold body. cbn [fst snd with_line state_ currentLine_ tempSeries_ series_
                  emptySeries points_ app].
  destruct pts as [|p pts]; [simpl in Hpts; lia|].
  assert (E2 : feed (lit "#" ++ [LF])
                 {| state_ := ReceivingSeries; currentLine_ := [];
                    tempSeries_ := {| points_ := p :: pts |}; series_ := [] |}
               = ([Nothing; SeriesCompleted],
                  {| state_ := Idle; currentLine_ := [];
                     tempSeries_ := emptySeries;
                     series_ := [ {| points_ := p :: pts |} ] |}))
    by reflexivity.
  rewrite E2. cbn [fst snd]. f_equal.
  repeat rewrite length_app.
  change (length (lit "*")) with 1. change (length (lit "#")) with 1.
  change (length [LF]) with 1.
  replace (1 + 1 + (length body + (1 + 1)) - 1) with (2 + (length body + 1))
    by lia.
  repeat rewrite repeat_app. rewrite <- app_assoc.
  change [Nothing; SeriesCompleted] with ([Nothing] ++ [SeriesCompleted]).
  rewrite <- (app_assoc (repeat Nothing (length body))). reflexivity.
Qed.

Lemma series_on_the_wire_witness :
  feed (series_bytes [lit "1.0 0.5"; lit "2.0 1.0"]) initial =
    (repeat Nothing 19 ++ [SeriesCompleted],
     {| state_ := Idle; currentLine_ := []; tempSeries_ := emptySeries;
        series_ := [ {| points_ := [point d_1_0 d_0_5; point d_2_0 d_1_0] |} ]
     |}).
Proof.
  refine (proj2 (series_on_the_wire 2 [lit "1.0 0.5"; lit "2.0 1.0"]
                   [point d_1_0 d_0_5; point d_2_0 d_1_0] _ _ _)).
  - lia.
  - reflexivity.
  - vm_compute. reflexivity.
Defined.

(** * Further properties of the code *)

(** ** One byte at a time *)

(** Every way a call of [processReceivedChar] can go. *)
Lemma process_cases (c : ascii) (m : MeasurementDataManager) :
  let r := fst (processReceivedChar c m) in
  let m' := snd (processReceivedChar c m) in
  (c <> LF /\ c <> CR /\ r = Nothing /\
   m' = with_line (currentLine_ m ++ [c]) (state_ m) (tempSeries_ m)
          (series_ m)) \/
  (c = CR /\ r = Nothing /\ m' = m) \/
  (c = LF /\ trim (currentLine_ m) <> lit "*" /\ r = Nothing /\
   extract_two (trim (currentLine_ m)) = None /\
   m' = with_line [] (state_ m) (tempSeries_ m) (series_ m)) \/
  (c = LF /\ state_ m = Idle /\ trim (currentLine_ m) <> lit "*" /\
   r = Nothing /\
   m' = with_line [] (state_ m) (tempSeries_ m) (series_ m)) \/
  (c = LF /\ trim (currentLine_ m) = lit "*" /\ r = Nothing /\
   m' = with_line [] ReceivingSeries emptySeries (series_ m)) \/
  (c = LF /\ trim (currentLine_ m) = lit "#" /\
   state_ m = ReceivingSeries /\ points (tempSeries_ m) <> [] /\
   r = SeriesCompleted /\
   m' = with_line [] Idle emptySeries (series_ m ++ [tempSeries_ m])) \/
  (c = LF /\ state_ m = ReceivingSeries /\
   exists x y, extract_two (trim (currentLine_ m)) = Some (x, y) /\
     r = Nothing /\
     m' = with_line [] ReceivingSeries (addPoint x y (tempSeries_ m))
            (series_ m)).
Proof.
  cbv zeta. destruct m as [st cur [ps] done].
  cbn [state_ currentLine_ tempSeries_ series_ points points_].
  destruct (Ascii.eqb c LF) eqn:Elf.
  - apply Ascii.eqb_eq in Elf. subst c. rewrite process_LF.
    unfold handleCompletedLine, parseDataLine, empty, with_line.
    cbn [state_ currentLine_ tempSeries_ series_ points points_].
    destruct (string_eqb (trim cur) (lit "*")) eqn:Estar.
    { apply string_eqb_eq in Estar. rewrite Estar.
      do 4 right. left. repeat split. }
    assert (Hstar : trim cur <> lit "*").
    { intros E. rewrite E in Estar. discriminate Estar. }
    destruct (string_eqb (trim cur) (lit "#")) eqn:Ehash.
    { apply string_eqb_eq in Ehash. rewrite Ehash in *.
      change (starts_with_star (lit "#")) with false.
      change (lit "#") with ["#"%char] in *. cbv iota. cbn [andb].
      destruct st.
      - do 3 right. left. cbn. repeat split; assumption.
      - destruct ps as [|p ps].
        + do 2 right. left. cbn. repeat split; assumption.
        + do 5 right. left. cbn. repeat split. discriminate. }
    destruct (trim cur) as [|a line] eqn:Et.
    { do 2 right. left. cbn. repeat split; assumption. }
    destruct (starts_with_star (a :: line)) eqn:Ess.
    { do 2 right. left. cbn. repeat split; try assumption.
      cbn [starts_with_star] in Ess. apply Ascii.eqb_eq in Ess. subst a.
      unfold extract_two. rewrite extract_star. reflexivity. }
    cbn [andb]. destruct st.
    { do 3 right. left. cbn. repeat split; assumption. }
    cbn [isReceiving].
    destruct (extract_two (a :: line)) as [[x y]|] eqn:Ex.
    + do 6 right. cbn. split; [reflexivity|]. split; [reflexivity|].
      exists x, y. repeat split.
    + do 2 right. left. cbn. repeat split; assumption.
  - assert (Hlf : c <> LF).
    { intros ->. rewrite Ascii.eqb_refl in Elf. discriminate Elf. }
    unfold processReceivedChar. rewrite Elf.
    destruct (Ascii.eqb c CR) eqn:Ecr.
    + apply Ascii.eqb_eq in Ecr. right. left. cbn. repeat split. exact Ecr.
    + left. cbn. repeat split; try assumption.
      intros ->. rewrite Ascii.eqb_refl in Ecr. discriminate Ecr.
Qed.

Lemma trim_nil_iff (s : std_string) : trim s = [] <-> all_space s.
Proof.
  split; intros H.
  - destruct (trim_blank_ends s) as (ws1 & ws2 & E & H1 & H2).
    rewrite H in E. cbn [app] in E. rewrite E. unfold all_space.
    rewrite forallb_app. apply andb_true_intro. split; assumption.
  - pose proof (trim_sandwich s [] [] H eq_refl I) as E.
    cbn [app] in E. rewrite app_nil_r in E. apply E.
    intros [|a pre] l E'; discriminate E'.
Qed.

(** X1: [trim] removes white space at both ends and nothing else: every
    string is white space, then its trimmed string, then white space, and
    the trimmed string neither begins nor ends with white space. *)
Theorem trim_strips_both_ends (s : std_string) :
  exists ws1 ws2,
    s = ws1 ++ trim s ++ ws2 /\ all_space ws1 /\ all_space ws2 /\
    head_nonblank (trim s) /\ last_nonblank (trim s).
Proof.
  destruct (blank_ends s) as (ws1 & body & ws2 & E & H1 & H2 & Hh & Hl).
  exists ws1, ws2. rewrite E at 2.
  rewrite E, (trim_sandwich _ _ _ H1 H2 Hh Hl). auto.
Qed.

(** X2: trimming twice is trimming once. *)
Theorem trim_idempotent (s : std_string) : trim (trim s) = trim s.
Proof.
  destruct (blank_ends s) as (ws1 & body & ws2 & -> & H1 & H2 & Hh & Hl).
  rewrite (trim_sandwich _ _ _ H1 H2 Hh Hl).
  pose proof (trim_sandwich [] body [] eq_refl eq_refl Hh Hl) as E.
  cbn [app] in E. rewrite app_nil_r in E. exact E.
Qed.

(** X3: a line made of white space only, the empty line included, is
    ignored in every state: the call on its line feed returns [Nothing] and
    only clears the line buffer. *)
Theorem blank_line_ignored (m : MeasurementDataManager) :
  all_space (currentLine_ m) ->
  processReceivedChar LF m =
    (Nothing, with_line [] (state_ m) (tempSeries_ m) (series_ m)).
Proof.
  intros H. apply trim_nil_iff in H.
  rewrite process_LF, (handle_empty _ _ H). reflexivity.
Qed.

Lemma blank_line_ignored_witness :
  processReceivedChar LF
    (with_line (lit "   ") ReceivingSeries series_2 [series_1]) =
  (Nothing, with_line [] ReceivingSeries series_2 [series_1]).
Proof.
  apply (blank_line_ignored
           (with_line (lit "   ") ReceivingSeries series_2 [series_1])).
  reflexivity.
Defined.

Lemma completions_app (a b : list ParseResult) :
  completions (a ++ b) = completions a + completions b.
Proof. unfold completions. rewrite filter_app, length_app. reflexivity. Qed.

Lemma feed_cons (c : ascii) (bytes : std_string) (m : MeasurementDataManager) :
  feed (c :: bytes) m =
    (fst (processReceivedChar c m)
       :: fst (feed bytes (snd (processReceivedChar c m))),
     snd (feed bytes (snd (processReceivedChar c m)))).
Proof.
  cbn [feed]. destruct (processReceivedChar c m) as [r m']. cbn [fst snd].
  destruct (feed bytes m') as [rs m'']. reflexivity.
Qed.

(** X4: carriage returns are dropped wherever they stand: feeding bytes
    leaves the manager that feeding the bytes without their carriage
    returns leaves, with as many [SeriesCompleted] results. *)
Theorem carriage_returns_ignored (bytes : std_string)
    (m : MeasurementDataManager) :
  snd (feed bytes m) = snd (feed (drop_cr bytes) m) /\
  completions (fst (feed bytes m)) =
    completions (fst (feed (drop_cr bytes) m)).
Proof.
  revert m. induction bytes as [|c bytes IH]; intros m.
  - split; reflexivity.
  - cbn [drop_cr filter]. fold (drop_cr bytes).
    destruct (Ascii.eqb c CR) eqn:Ecr; cbn [negb].
    + apply Ascii.eqb_eq in Ecr. subst c. rewrite feed_cons.
      change (processReceivedChar CR m) with (Nothing, m).
      cbn [fst snd]. apply (IH m).
    + rewrite !feed_cons. cbn [fst snd].
      change (completions (?r :: ?rs)) with (completions ([r] ++ rs)).
      destruct (IH (snd (processReceivedChar c m))) as [E1 E2].
      split; [exact E1|].
      change (fst (processReceivedChar c m)
                :: fst (feed bytes (snd (processReceivedChar c m))))
        with ([fst (processReceivedChar c m)]
                ++ fst (feed bytes (snd (processReceivedChar c m)))).
      change (fst (processReceivedChar c m)
                :: fst (feed (drop_cr bytes) (snd (processReceivedChar c m))))
        with ([fst (processReceivedChar c m)]
                ++ fst (feed (drop_cr bytes) (snd (processReceivedChar c m)))).
      rewrite !completions_app, E2. reflexivity.
Qed.

(** X5: [processReceivedChar] returns [SeriesCompleted] exactly when the
    byte is a line feed, the buffered line trimmed is [#], the state is
    [ReceivingSeries] and the temporary series holds a point. *)
Theorem series_completed_iff (c : ascii) (m : MeasurementDataManager) :
  fst (processReceivedChar c m) = SeriesCompleted <->
  (c = LF /\ trim (currentLine_ m) = lit "#" /\
   state_ m = ReceivingSeries /\ points (tempSeries_ m) <> []).
Proof.
  split.
  - intros H.
    destruct (process_cases c m)
      as [(_ & _ & E & _) | [(_ & E & _) | [(_ & _ & E & _)
        | [(_ & _ & _ & E & _) | [(_ & _ & E & _)
        | [(Hc & Ht & Hs & Hp & _) | (_ & _ & x & y & _ & E & _)]]]]]];
      try (rewrite E in H; discriminate H).
    auto.
  - intros (-> & Ht & Hs & Hp). rewrite process_LF, (handle_hash _ _ Ht), Hs.
    unfold empty, points in *.
    destruct (points_ (tempSeries_ m)); [congruence | reflexivity].
Qed.

(** X6: in state [Idle] everything but a [*] line is ignored: unless the
    byte is the line feed of a line that trimmed is [*], the call returns
    [Nothing] and leaves the state, the temporary series and the completed
    collection as they are. *)
Theorem idle_waits_for_star (c : ascii) (m : MeasurementDataManager) :
  state_ m = Idle ->
  ~ (c = LF /\ trim (currentLine_ m) = lit "*") ->
  fst (processReceivedChar c m) = Nothing /\
  state_ (snd (processReceivedChar c m)) = Idle /\
  tempSeries_ (snd (processReceivedChar c m)) = tempSeries_ m /\
  series_ (snd (processReceivedChar c m)) = series_ m.
Proof.
  intros Hs Hn.
  destruct (process_cases c m)
    as [(_ & _ & Er & Em) | [(_ & Er & Em) | [(_ & _ & Er & _ & Em)
      | [(_ & _ & _ & Er & Em) | [(Hc & Ht & _)
      | [(_ & _ & Hs' & _) | (_ & Hs' & _)]]]]]];
    try (rewrite Er, Em, <- ?Hs; repeat split; reflexivity);
    try congruence.
  destruct (Hn (conj Hc Ht)).
Qed.

Lemma idle_waits_for_star_witness :
  let m := with_line (lit "1.0 2.0") Idle emptySeries [series_1] in
  fst (processReceivedChar LF m) = Nothing /\
  state_ (snd (processReceivedChar LF m)) = Idle /\
  tempSeries_ (snd (processReceivedChar LF m)) = emptySeries /\
  series_ (snd (processReceivedChar LF m)) = [series_1].
Proof.
  cbv zeta.
  apply (idle_waits_for_star LF
           (with_line (lit "1.0 2.0") Idle emptySeries [series_1]) eq_refl).
  intros [_ H]. vm_compute in H. discriminate H.
Defined.

(** X7: a call changes the temporary series in one of two ways only: it
    empties it, or, on the line feed of a line received in state
    [ReceivingSeries], it appends one point to it.  Points already there
    are never changed, reordered or removed one by one. *)
Theorem temp_series_step (c : ascii) (m : MeasurementDataManager) :
  let m' := snd (processReceivedChar c m) in
  tempSeries_ m' = tempSeries_ m \/
  tempSeries_ m' = emptySeries \/
  (c = LF /\ state_ m = ReceivingSeries /\
   exists x y, tempSeries_ m' = addPoint x y (tempSeries_ m)).
Proof.
  cbv zeta.
  destruct (process_cases c m)
    as [(_ & _ & _ & Em) | [(_ & _ & Em) | [(_ & _ & _ & _ & Em)
      | [(_ & _ & _ & _ & Em) | [(_ & _ & _ & Em)
      | [(_ & _ & _ & _ & _ & Em) | (Hc & Hs & x & y & _ & _ & Em)]]]]]];
    rewrite Em; auto.
  right. right. split; [exact Hc|]. split; [exact Hs|].
  exists x, y. reflexivity.
Qed.

(** ** The parser and the completed collection *)

Lemma process_frame (c : ascii) (m1 m2 : MeasurementDataManager) :
  parser_part m1 = parser_part m2 ->
  fst (processReceivedChar c m1) = fst (processReceivedChar c m2) /\
  parser_part (snd (processReceivedChar c m1)) =
    parser_part (snd (processReceivedChar c m2)).
Proof.
  destruct m1 as [st1 cur1 temp1 done1], m2 as [st2 cur2 temp2 done2].
  unfold parser_part. cbn [state_ currentLine_ tempSeries_].
  intros H. injection H as -> -> ->.
  unfold processReceivedChar. cbn [currentLine_].
  destruct (Ascii.eqb c LF).
  - unfold handleCompletedLine, parseDataLine.
    cbn [state_ currentLine_ tempSeries_ series_].
    destruct (trim cur2) as [|a line]; [split; reflexivity|].
    repeat match goal with
      | |- context [if ?b then _ else _] => destruct b
      | |- context [match extract_two ?x with _ => _ end] =>
          destruct (extract_two x) as [[? ?]|]
      end; split; reflexivity.
  - destruct (negb (Ascii.eqb c CR)); split; reflexivity.
Qed.

(** X8: reception does not look at the completed collection: two managers
    that differ in their completed series only give, on the same bytes, the
    same results, byte for byte, and end with the same state, line buffer
    and temporary series.  Removing completed series while a series is
    being received therefore does not disturb it. *)
Theorem reception_ignores_completed (bytes : std_string)
    (m1 m2 : MeasurementDataManager) :
  parser_part m1 = parser_part m2 ->
  fst (feed bytes m1) = fst (feed bytes m2) /\
  parser_part (snd (feed bytes m1)) = parser_part (snd (feed bytes m2)).
Proof.
  revert m1 m2. induction bytes as [|c bytes IH]; intros m1 m2 H.
  - split; [reflexivity | exact H].
  - rewrite !feed_cons. cbn [fst snd].
    destruct (process_frame c m1 m2 H) as [Er Ep].
    destruct (IH _ _ Ep) as [Ers Em].
    rewrite Er, Ers. split; [reflexivity | exact Em].
Qed.

Lemma reception_ignores_completed_witness :
  let m := with_line [] ReceivingSeries series_1 [series_2] in
  let bytes := lit "3.0 0.5" ++ [LF] ++ lit "#" ++ [LF] in
  fst (feed bytes (removeAllSeries m)) = fst (feed bytes m) /\
  parser_part (snd (feed bytes (removeAllSeries m))) =
    parser_part (snd (feed bytes m)).
Proof.
  cbv zeta.
  apply (reception_ignores_completed
           (lit "3.0 0.5" ++ [LF] ++ lit "#" ++ [LF])
           (removeAllSeries (with_line [] ReceivingSeries series_1 [series_2]))
           (with_line [] ReceivingSeries series_1 [series_2])).
  reflexivity.
Defined.

Lemma feed_grows_completed (bytes : std_string)
    (m : MeasurementDataManager) :
  exists added,
    series_ (snd (feed bytes m)) = series_ m ++ added /\
    length added = completions (fst (feed bytes m)) /\
    Forall nonempty_series added.
Proof.
  revert m. induction bytes as [|c bytes IH]; intros m.
  - exists []. cbn. rewrite app_nil_r. repeat split. constructor.
  - rewrite feed_cons. cbn [fst snd].
    destruct (IH (snd (processReceivedChar c m))) as (added & E & Hl & Hne).
    destruct (process_series_step c m)
      as [[Er Es] | (Er & _ & Hp & Es & _)]; rewrite E, Es, Er.
    + exists added. repeat split; assumption.
    + exists (tempSeries_ m :: added). rewrite <- app_assoc.
      repeat split.
      * unfold completions in *. cbn. rewrite Hl. reflexivity.
      * constructor; assumption.
Qed.

(** X9: the bytes fed only append to the completed collection: the series
    it held stay in front, unchanged, and as many series are added, none of
    them empty, as calls returned [SeriesCompleted]. *)
Theorem feed_appends_completed (bytes : std_string)
    (m : MeasurementDataManager) :
  exists added,
    series_ (snd (feed bytes m)) = series_ m ++ added /\
    length added = completions (fst (feed bytes m)) /\
    Forall nonempty_series added.
Proof. exact (feed_grows_completed bytes m). Qed.

(** X10: the series just completed is the last of the collection: when a
    call returns [SeriesCompleted], [seriesCount] has grown by one,
    [series] at the old count is the temporary series as it was, and
    [series] at every smaller index is what it was. *)
Theorem completed_series_lookup (c : ascii) (m : MeasurementDataManager) :
  fst (processReceivedChar c m) = SeriesCompleted ->
  let m' := snd (processReceivedChar c m) in
  seriesCount m' = S (seriesCount m) /\
  series (seriesCount m) m' = inl (tempSeries_ m) /\
  (forall i, i < seriesCount m -> series i m' = series i m).
Proof.
  intros H. cbv zeta. unfold series, seriesCount.
  destruct (process_series_step c m)
    as [[Er _] | (_ & _ & _ & Es & _)]; [congruence|].
  rewrite Es. repeat split.
  - rewrite length_app. cbn. lia.
  - rewrite nth_error_app2 by lia. rewrite Nat.sub_diag. reflexivity.
  - intros i Hi. rewrite nth_error_app1 by exact Hi. reflexivity.
Qed.

Lemma completed_series_lookup_witness :
  let m := with_line (lit "#") ReceivingSeries series_2 [series_1] in
  seriesCount (snd (processReceivedChar LF m)) = 2 /\
  series 1 (snd (processReceivedChar LF m)) = inl series_2 /\
  (forall i, i < 1 ->
     series i (snd (processReceivedChar LF m)) = series i m).
Proof.
  cbv zeta.
  apply (completed_series_lookup LF
           (with_line (lit "#") ReceivingSeries series_2 [series_1])).
  reflexivity.
Defined.

(** X11: [removeLastSeries] takes back a completion: after a call that
    returned [SeriesCompleted], removing the last series gives the completed
    collection of before the call, and leaves the parser as the call left
    it. *)
Theorem removeLast_undoes_completion (c : ascii)
    (m : MeasurementDataManager) :
  fst (processReceivedChar c m) = SeriesCompleted ->
  let m' := snd (processReceivedChar c m) in
  series_ (removeLastSeries m') = series_ m /\
  parser_part (removeLastSeries m') = parser_part m'.
Proof.
  intros H. cbv zeta.
  destruct (process_series_step c m)
    as [[Er _] | (_ & _ & _ & Es & _)]; [congruence|].
  unfold removeLastSeries. rewrite Es.
  destruct (series_ m ++ [tempSeries_ m]) as [|s ss] eqn:E.
  - destruct (series_ m); discriminate E.
  - rewrite <- E. cbn [series_]. unfold pop_back.
    rewrite removelast_last. split; reflexivity.
Qed.

Lemma removeLast_undoes_completion_witness :
  let m := with_line (lit "#") ReceivingSeries series_2 [series_1] in
  series_ (removeLastSeries (snd (processReceivedChar LF m))) = [series_1] /\
  parser_part (removeLastSeries (snd (processReceivedChar LF m))) =
    parser_part (snd (processReceivedChar LF m)).
Proof.
  cbv zeta.
  apply (removeLast_undoes_completion LF
           (with_line (lit "#") ReceivingSeries series_2 [series_1])).
  reflexivity.
Defined.

(** ** Invariants of the manager *)

Lemma after_invariant (P : MeasurementDataManager -> Prop) :
  P initial ->
  (forall m op, P m -> P (perform m op)) ->
  forall ops, P (after ops).
Proof.
  intros H0 Hstep ops. unfold after. generalize initial H0.
  induction ops as [|op ops IH]; intros m Hm; cbn [fold_left].
  - exact Hm.
  - apply IH. apply Hstep. exact Hm.
Qed.

Lemma removeLastSeries_parser (m : MeasurementDataManager) :
  parser_part (removeLastSeries m) = parser_part m.
Proof. unfold removeLastSeries. destruct (series_ m); reflexivity. Qed.

Lemma idle_temp_empty (ops : list Operation) :
  state_ (after ops) = Idle -> points (tempSeries_ (after ops)) = [].
Proof.
  apply (after_invariant
           (fun m => state_ m = Idle -> points (tempSeries_ m) = [])).
  - reflexivity.
  - intros m op IH. destruct op as [c| |]; cbn [perform].
    + destruct (process_cases c m)
        as [(_ & _ & _ & Em) | [(_ & _ & Em) | [(_ & _ & _ & _ & Em)
          | [(_ & _ & _ & _ & Em) | [(_ & _ & _ & Em)
          | [(_ & _ & _ & _ & _ & Em) | (_ & _ & x & y & _ & _ & Em)]]]]]];
        rewrite Em; cbn; try exact IH; try discriminate; reflexivity.
    + pose proof (removeLastSeries_parser m) as E. unfold parser_part in E.
      injection E as -> _ ->. exact IH.
    + exact IH.
Qed.

(** X12: in state [Idle] the temporary series is empty, after any run of
    operations on the initial manager; [tempSeriesSize] is then [0]. *)
Theorem idle_has_no_temporary_points (ops : list Operation) :
  state_ (after ops) = Idle ->
  points (tempSeries_ (after ops)) = [] /\ tempSeriesSize (after ops) = 0.
Proof.
  intros Hs. pose proof (idle_temp_empty ops Hs) as H.
  split; [exact H|].
  unfold tempSeriesSize, size. unfold points in H. rewrite H. reflexivity.
Qed.

Lemma idle_has_no_temporary_points_witness :
  tempSeriesSize
    (after (map Receive (lit "*" ++ [LF] ++ lit "1 2" ++ [LF]
                           ++ lit "#" ++ [LF]))) = 0.
Proof.
  apply (idle_has_no_temporary_points
           (map Receive (lit "*" ++ [LF] ++ lit "1 2" ++ [LF]
                           ++ lit "#" ++ [LF]))).
  vm_compute. reflexivity.
Defined.

(** X13: the line buffer never holds a line feed or a carriage return,
    after any run of operations on the initial manager. *)
Theorem line_buffer_has_no_terminator (ops : list Operation) :
  Forall (fun c => c <> LF /\ c <> CR) (currentLine_ (after ops)).
Proof.
  apply (after_invariant
           (fun m => Forall (fun c => c <> LF /\ c <> CR) (currentLine_ m))).
  - constructor.
  - intros m op IH. destruct op as [c| |]; cbn [perform].
    + destruct (process_cases c m)
        as [(Hlf & Hcr & _ & Em) | [(_ & _ & Em) | [(_ & _ & _ & _ & Em)
          | [(_ & _ & _ & _ & Em) | [(_ & _ & _ & Em)
          | [(_ & _ & _ & _ & _ & Em) | (_ & _ & x & y & _ & _ & Em)]]]]]];
        rewrite Em; cbn; try exact IH; try constructor.
      apply Forall_app. split; [exact IH|]. constructor; [auto | constructor].
    + pose proof (removeLastSeries_parser m) as E. unfold parser_part in E.
      injection E as _ -> _. exact IH.
    + exact IH.
Qed.

Lemma extract_double_finite (s rest : std_string) (v : double) :
  extract_double s = Some (v, rest) -> Double.is_finite v = true.
Proof.
  unfold extract_double, Extract.extract_double.
  destruct (Extract.skipws s) as [|a s1]; [discriminate|].
  destruct (Extract.scan_field (a :: s1)) as [f r].
  destruct (Extract.complete f && Double.is_finite (Extract.value f)) eqn:E;
    [|discriminate].
  intros H. injection H as <- _. apply andb_prop in E. apply E.
Qed.

Lemma extract_two_finite (line : std_string) (x y : double) :
  extract_two line = Some (x, y) ->
  Double.is_finite x = true /\ Double.is_finite y = true.
Proof.
  unfold extract_two.
  destruct (extract_double line) as [[x' rest]|] eqn:Ex; [|discriminate].
  destruct (extract_double rest) as [[y' rest']|] eqn:Ey; [|discriminate].
  intros H. injection H as <- <-. split.
  - exact (extract_double_finite _ _ _ Ex).
  - exact (extract_double_finite _ _ _ Ey).
Qed.

Lemma after_all_finite (ops : list Operation) : all_finite (after ops).
Proof.
  apply (after_invariant all_finite).
  - split; constructor.
  - intros m op [Hs Ht]. destruct op as [c| |]; cbn [perform].
    + destruct (process_cases c m)
        as [(_ & _ & _ & Em) | [(_ & _ & Em) | [(_ & _ & _ & _ & Em)
          | [(_ & _ & _ & _ & Em) | [(_ & _ & _ & Em)
          | [(_ & _ & _ & _ & _ & Em) | (_ & _ & x & y & Ex & _ & Em)]]]]]];
        rewrite Em; unfold all_finite; cbn; try (split; assumption);
        try (split; [assumption | constructor]).
      * split; [|constructor]. apply Forall_app. split; [exact Hs|].
        constructor; [exact Ht | constructor].
      * split; [exact Hs|]. apply Forall_app. split; [exact Ht|].
        destruct (extract_two_finite _ _ _ Ex) as [Hx Hy].
        constructor; [|constructor]. unfold finite_point. cbn.
        rewrite Hx, Hy. reflexivity.
    + unfold all_finite.
      pose proof (removeLastSeries_parser m) as E. unfold parser_part in E.
      injection E as _ _ ->. split; [|exact Ht].
      unfold removeLastSeries. destruct (series_ m) as [|s ss] eqn:Es;
        [rewrite Es; constructor|].
      cbn [series_]. apply removelast_Forall. exact Hs.
    + split; [constructor | exact Ht].
Qed.

Lemma all_points_finite (ops : list Operation) :
  Forall (fun p => finite_point p = true) (allPoints (after ops)).
Proof.
  destruct (after_all_finite ops) as [Hs Ht]. unfold allPoints.
  apply Forall_app. split; [|exact Ht].
  apply Forall_concat. apply Forall_map. exact Hs.
Qed.

(** X14: every coordinate the manager holds is a finite number, never an
    infinity or a NaN, after any run of operations on the initial manager:
    the points come from [iss >> x >> y], which fails on a number out of
    range and reads no infinity or NaN. *)
Theorem stored_points_finite (ops : list Operation) :
  forall p, In p (allPoints (after ops)) ->
    Double.is_finite (voltageVolt p) = true /\
    Double.is_finite (currentMilliAmp p) = true.
Proof.
  intros p Hin.
  pose proof (proj1 (Forall_forall _ _) (all_points_finite ops) p Hin)
    as Hf.
  unfold finite_point in Hf. apply andb_prop in Hf. exact Hf.
Qed.

Lemma stored_points_finite_witness :
  Double.is_finite d_1_0 = true /\ Double.is_finite d_2_0 = true.
Proof.
  apply (stored_points_finite
           (map Receive (lit "*" ++ [LF] ++ lit "1.0 2.0" ++ [LF]))
           (point d_1_0 d_2_0)).
  vm_compute. left. reflexivity.
Defined.

(** ** The maxima again *)

Section DoubleTotal.

Local Ltac by_compare_all :=
  repeat match goal with
    | |- context [Z.compare ?x ?y] => destruct (Z.compare_spec x y)
    | |- context [Pos.compare_cont Eq ?x ?y] =>
        change (Pos.compare_cont Eq x y) with (Pos.compare x y);
        destruct (Pos.compare_spec x y)
    end;
  simpl; subst; intros; try reflexivity; try discriminate; try lia.

(** Two doubles that are not NaN compare. *)
Lemma SFleb_total (a b : spec_float) :
  a <> S754_nan -> b <> S754_nan ->
  SFltb a b = false -> SFleb b a = true.
Proof.
  unfold SFltb, SFleb, SFcompare.
  destruct a as [[]|[]| |[] ma ea], b as [[]|[]| |[] mb eb];
    simpl; intros Ha Hb; try congruence; by_compare_all.
Qed.

End DoubleTotal.

Lemma finite_not_nan (x : double) : Double.is_finite x = true -> x <> S754_nan.
Proof. intros H ->. discriminate H. Qed.

Lemma ge_zero_not_nan (r : double) :
  Double.ge r Double.zero = true -> r <> S754_nan.
Proof. intros H ->. discriminate H. Qed.

Lemma scanAll_ge_finite (coord : MeasurementPoint -> double)
    (m : MeasurementDataManager) (p : MeasurementPoint) :
  In p (allPoints m) -> Double.is_finite (coord p) = true ->
  Double.ge (scanAll coord m) (coord p) = true.
Proof.
  intros Hin Hf. destruct (scanAll_spec coord m) as (Hge & _ & Hup).
  unfold Double.ge. apply SFleb_total.
  - apply ge_zero_not_nan. exact Hge.
  - apply finite_not_nan. exact Hf.
  - exact (Hup p Hin).
Qed.

(** X15: after any run of operations on the initial manager,
    [getMaxVoltage()] is greater than or equal to the voltage of every point
    held, in the completed series and in the temporary one, and
    [getMaxCurrent()] to every current. *)
Theorem getMax_bounds_every_point (ops : list Operation) :
  forall p, In p (allPoints (after ops)) ->
    Double.ge (getMaxVoltage (after ops)) (voltageVolt p) = true /\
    Double.ge (getMaxCurrent (after ops)) (currentMilliAmp p) = true.
Proof.
  intros p Hin.
  pose proof (proj1 (Forall_forall _ _) (all_points_finite ops) p Hin)
    as Hf.
  unfold finite_point in Hf. apply andb_prop in Hf. destruct Hf as [Hv Hc].
  split.
  - exact (scanAll_ge_finite voltageVolt _ p Hin Hv).
  - exact (scanAll_ge_finite currentMilliAmp _ p Hin Hc).
Qed.

Lemma getMax_bounds_every_point_witness :
  let ops := map Receive (lit "*" ++ [LF] ++ lit "1.0 2.0" ++ [LF]
                            ++ lit "3.0 0.5" ++ [LF]) in
  Double.ge (getMaxVoltage (after ops)) d_1_0 = true /\
  Double.ge (getMaxCurrent (after ops)) d_2_0 = true.
Proof.
  cbv zeta.
  apply (getMax_bounds_every_point
           (map Receive (lit "*" ++ [LF] ++ lit "1.0 2.0" ++ [LF]
                           ++ lit "3.0 0.5" ++ [LF]))
           (point d_1_0 d_2_0)).
  vm_compute. left. reflexivity.
Defined.

(** X16: a data line that is accepted updates the maxima by its own
    numbers alone: the new maximum voltage is the first number when it is
    greater than the old maximum and the old maximum otherwise, and likewise
    for the current and the second number. *)
Theorem getMax_after_point (line : std_string) (m : MeasurementDataManager)
    (x y : double) :
  extract_two line = Some (x, y) ->
  getMaxVoltage (parseDataLine line m) = scan_max x (getMaxVoltage m) /\
  getMaxCurrent (parseDataLine line m) = scan_max y (getMaxCurrent m).
Proof.
  intros H. unfold parseDataLine. rewrite H.
  unfold getMaxVoltage, getMaxCurrent, scanAll, addPoint, points.
  cbn [state_ currentLine_ tempSeries_ series_ points_].
  rewrite !scanPoints_app. split; reflexivity.
Qed.

Lemma getMax_after_point_witness :
  let m := with_line [] ReceivingSeries series_1 [] in
  getMaxVoltage (parseDataLine (lit "3.0 0.5") m) = d_3_0 /\
  getMaxCurrent (parseDataLine (lit "3.0 0.5") m) = d_0_5.
Proof.
  cbv zeta.
  apply (getMax_after_point (lit "3.0 0.5")
           (with_line [] ReceivingSeries series_1 []) d_3_0 d_0_5).
  vm_compute. reflexivity.
Defined.

(** X17: completing a series does not change the maxima: the call that
    returns [SeriesCompleted] leaves [getMaxVoltage()] and
    [getMaxCurrent()] as they were. *)
Theorem getMax_kept_by_completion (c : ascii) (m : MeasurementDataManager) :
  fst (processReceivedChar c m) = SeriesCompleted ->
  getMaxVoltage (snd (processReceivedChar c m)) = getMaxVoltage m /\
  getMaxCurrent (snd (processReceivedChar c m)) = getMaxCurrent m.
Proof.
  intros H.
  destruct (process_series_step c m)
    as [[Er _] | (_ & _ & _ & Es & Et & _)]; [congruence|].
  assert (E : allPoints (snd (processReceivedChar c m)) = allPoints m).
  { unfold allPoints. rewrite Es, Et, map_app, concat_app. cbn.
    rewrite !app_nil_r. reflexivity. }
  unfold getMaxVoltage, getMaxCurrent. rewrite !scanAll_allPoints, E.
  split; reflexivity.
Qed.

Lemma getMax_kept_by_completion_witness :
  let m := with_line (lit "#") ReceivingSeries series_2 [series_1] in
  getMaxVoltage (snd (processReceivedChar LF m)) = getMaxVoltage m /\
  getMaxCurrent (snd (processReceivedChar LF m)) = getMaxCurrent m.
Proof.
  cbv zeta.
  apply (getMax_kept_by_completion LF
           (with_line (lit "#") ReceivingSeries series_2 [series_1])).
  reflexivity.
Defined.

(** ** The main window's reception *)

Lemma handleSerialByte_manager (c : ascii) (m : MeasurementDataManager) :
  snd (handleSerialByte c m) = snd (processReceivedChar c m).
Proof.
  unfold handleSerialByte. destruct (processReceivedChar c m) as [[|] m'];
    [destruct (Ascii.eqb c LF)|]; reflexivity.
Qed.

Lemma handleSerialByte_rebuilds (c : ascii) (m : MeasurementDataManager) :
  rebuilds (fst (handleSerialByte c m)) =
    completions [fst (processReceivedChar c m)].
Proof.
  unfold handleSerialByte. destruct (processReceivedChar c m) as [[|] m'];
    [destruct (Ascii.eqb c LF)|]; reflexivity.
Qed.

Lemma onSerial_cons (c : ascii) (data : std_string)
    (m : MeasurementDataManager) :
  onSerialDataReceived (c :: data) m =
    (fst (handleSerialByte c m)
       ++ fst (onSerialDataReceived data (snd (handleSerialByte c m))),
     snd (onSerialDataReceived data (snd (handleSerialByte c m)))).
Proof.
  cbn [onSerialDataReceived]. destruct (handleSerialByte c m) as [calls m'].
  cbn [fst snd]. destruct (onSerialDataReceived data m') as [calls' m''].
  reflexivity.
Qed.

Lemma onSerial_app (a b : std_string) (m : MeasurementDataManager) :
  onSerialDataReceived (a ++ b) m =
    (fst (onSerialDataReceived a m)
       ++ fst (onSerialDataReceived b (snd (onSerialDataReceived a m))),
     snd (onSerialDataReceived b (snd (onSerialDataReceived a m)))).
Proof.
  revert m. induction a as [|c a IH]; intros m.
  - cbn [app onSerialDataReceived fst snd].
    destruct (onSerialDataReceived b m). reflexivity.
  - cbn [app]. rewrite !onSerial_cons, IH. cbn [fst snd].
    rewrite app_assoc. reflexivity.
Qed.

(** X18: how the port cuts the bytes into chunks does not matter: the
    window makes the same calls and ends with the same manager whether the
    bytes come in any number of chunks or all at once. *)
Theorem chunks_do_not_matter (chunks : list std_string)
    (m : MeasurementDataManager) :
  receiveChunks chunks m = onSerialDataReceived (concat chunks) m.
Proof.
  revert m. induction chunks as [|data chunks IH]; intros m.
  - reflexivity.
  - cbn [receiveChunks concat]. rewrite onSerial_app.
    destruct (onSerialDataReceived data m) as [calls m']. cbn [fst snd].
    rewrite IH.
    destruct (onSerialDataReceived (concat chunks) m'). reflexivity.
Qed.

(** X19: the window ends with the manager the bytes give, and rebuilds its
    chart once for every call that returned [SeriesCompleted], that is,
    once for every series added to the completed collection. *)
Theorem chart_rebuilt_once_per_series (data : std_string)
    (m : MeasurementDataManager) :
  snd (onSerialDataReceived data m) = snd (feed data m) /\
  rebuilds (fst (onSerialDataReceived data m)) =
    completions (fst (feed data m)) /\
  seriesCount (snd (onSerialDataReceived data m)) =
    seriesCount m + rebuilds (fst (onSerialDataReceived data m)).
Proof.
  assert (H : snd (onSerialDataReceived data m) = snd (feed data m) /\
              rebuilds (fst (onSerialDataReceived data m)) =
                completions (fst (feed data m))).
  { revert m. induction data as [|c data IH]; intros m.
    - split; reflexivity.
    - rewrite onSerial_cons, feed_cons. cbn [fst snd].
      rewrite handleSerialByte_manager.
      destruct (IH (snd (processReceivedChar c m))) as [Em Er].
      split; [exact Em|].
      unfold rebuilds in *. rewrite filter_app, length_app.
      fold (rebuilds (fst (handleSerialByte c m))).
      rewrite handleSerialByte_rebuilds, Er.
      change (fst (processReceivedChar c m)
                :: fst (feed data (snd (processReceivedChar c m))))
        with ([fst (processReceivedChar c m)]
                ++ fst (feed data (snd (processReceivedChar c m)))).
      rewrite completions_app. reflexivity. }
  destruct H as [Em Er]. split; [exact Em|]. split; [exact Er|].
  rewrite Er, Em. unfold seriesCount.
  destruct (feed_grows_completed data m) as (added & E & Hl & _).
  rewrite E, length_app, Hl. reflexivity.
Qed.

Lemma process_not_LF (c : ascii) (m : MeasurementDataManager) :
  Ascii.eqb LF c = false ->
  fst (processReceivedChar c m) = Nothing /\
  handleSerialByte c m = ([], snd (processReceivedChar c m)).
Proof.
  intros H. rewrite Ascii.eqb_sym in H.
  unfold handleSerialByte, processReceivedChar. rewrite H.
  destruct (negb (Ascii.eqb c CR)); split; reflexivity.
Qed.

(** The bytes of a line, before its line feed, make the window do
    nothing. *)
Lemma onSerial_line_bytes (l : std_string) (m : MeasurementDataManager) :
  existsb (Ascii.eqb LF) l = false ->
  onSerialDataReceived l m = ([], snd (feed l m)).
Proof.
  revert m. induction l as [|c l IH]; intros m H.
  - reflexivity.
  - cbn [existsb] in H. apply orb_false_elim in H. destruct H as [Hc H].
    rewrite onSerial_cons, feed_cons.
    destruct (process_not_LF c m Hc) as [_ E]. rewrite E. cbn [fst snd app].
    rewrite (IH _ H). reflexivity.
Qed.

Lemma process_data_line_feed (l : std_string) (p : MeasurementPoint)
    (m : MeasurementDataManager) :
  data_line_point l = Some p ->
  state_ m = ReceivingSeries -> currentLine_ m = [] ->
  processReceivedChar LF (snd (feed l m)) =
    (Nothing, with_point (voltageVolt p) (currentMilliAmp p) m).
Proof.
  intros Hp Hs Hl. pose proof (feed_data_line l p m Hp Hs Hl) as E.
  destruct (data_line_point_spec l p Hp) as [Hlf _].
  rewrite feed_app in E.
  change (feed [LF] (snd (feed l m)))
    with (let '(r, m') := processReceivedChar LF (snd (feed l m)) in
          (r :: [], m')) in E.
  destruct (processReceivedChar LF (snd (feed l m))) as [r m'].
  cbn [fst snd] in E. rewrite (feed_line_bytes l m Hlf) in E.
  cbn [fst] in E. rewrite last_length in E.
  change (S (length l)) with (1 + length l) in E.
  rewrite Nat.add_comm, repeat_app in E. injection E as Er Em.
  apply app_inv_head in Er. injection Er as ->. rewrite Em. reflexivity.
Qed.

Lemma to_int_small (n : nat) :
  (Z.of_nat n < 2 ^ 31)%Z -> to_int n = Z.of_nat n.
Proof.
  unfold to_int. change (2 ^ 31)%Z with 2147483648%Z.
  change (2 ^ 32)%Z with 4294967296%Z. intros H.
  rewrite Z.mod_small by lia. lia.
Qed.

(** The line feed of a data line, in state [ReceivingSeries]: the status
    shows one dot per point received so far. *)
Lemma onSerial_data_line (l : std_string) (p : MeasurementPoint)
    (m : MeasurementDataManager) (k : nat) :
  data_line_point l = Some p ->
  state_ m = ReceivingSeries -> currentLine_ m = [] ->
  tempSeriesSize m = k -> (Z.of_nat (S k) < 2 ^ 31)%Z ->
  onSerialDataReceived (l ++ [LF]) m =
    ([receiving (S k)], with_point (voltageVolt p) (currentMilliAmp p) m).
Proof.
  intros Hp Hs Hl Hk Hsmall.
  destruct (data_line_point_spec l p Hp) as [Hlf _].
  rewrite onSerial_app, (onSerial_line_bytes l m Hlf). cbn [fst snd app].
  rewrite onSerial_cons. cbn [onSerialDataReceived fst snd].
  rewrite app_nil_r. unfold handleSerialByte.
  rewrite (process_data_line_feed l p m Hp Hs Hl).
  rewrite Ascii.eqb_refl. cbv zeta. cbn [fst snd].
  assert (Hsize : tempSeriesSize
                    (with_point (voltageVolt p) (currentMilliAmp p) m) = S k).
  { unfold tempSeriesSize, size, with_point, addPoint in *.
    cbn [tempSeries_ points_]. rewrite length_app. cbn [length]. lia. }
  rewrite Hsize, (to_int_small _ Hsmall). unfold dots, receiving.
  rewrite Nat2Z.id. reflexivity.
Qed.

Lemma onSerial_data_lines (lines : list std_string) :
  forall (pts : list MeasurementPoint) (m : MeasurementDataManager) (k : nat),
  map data_line_point lines = map Some pts ->
  state_ m = ReceivingSeries -> currentLine_ m = [] ->
  tempSeriesSize m = k -> (Z.of_nat (k + length lines) < 2 ^ 31)%Z ->
  onSerialDataReceived (concat (map (fun l => l ++ [LF]) lines)) m =
    (map receiving (seq (S k) (length lines)),
     snd (feed (concat (map (fun l => l ++ [LF]) lines)) m)).
Proof.
  induction lines as [|l lines IH]; intros pts m k Hp Hs Hl Hk Hsmall.
  - reflexivity.
  - destruct pts as [|p pts]; [discriminate Hp|].
    cbn [map] in Hp. injection Hp as Hp Hps.
    cbn [map concat length seq]. cbn [length] in Hsmall.
    rewrite onSerial_app, feed_app.
    rewrite (onSerial_data_line l p m k Hp Hs Hl Hk) by lia.
    rewrite (feed_data_line l p m Hp Hs Hl). cbn [fst snd app].
    rewrite (IH pts (with_point (voltageVolt p) (currentMilliAmp p) m)
               (S k) Hps Hs Hl).
    + reflexivity.
    + unfold tempSeriesSize, size, with_point, addPoint in *.
      cbn [tempSeries_ points_]. rewrite length_app. cbn [length]. lia.
    + lia.
Qed.

(** X20: the status bar counts the points of a series as they come: for
    the bytes of a [*] line, of [N >= 1] data lines and of a [#] line, with
    [N] below [2^31], received by the initial manager, the window shows
    [Receiving data] followed by no dot, then by one dot, and so on up to
    [N] dots, each at the line feed of a line, then shows [Ready] and
    rebuilds the chart; it makes no other call. *)
Theorem status_counts_the_points (N : nat) (lines : list std_string)
    (pts : list MeasurementPoint) :
  1 <= N -> length lines = N -> (Z.of_nat N < 2 ^ 31)%Z ->
  map data_line_point lines = map Some pts ->
  fst (onSerialDataReceived (series_bytes lines) initial) =
    map receiving (seq 0 (S N)) ++ [ShowMessage (lit "Ready"); RebuildChart].
Proof.
  intros HN Hlen Hsmall Hp.
  assert (Hpts : length pts = N).
  { rewrite <- Hlen, <- (length_map data_line_point), Hp.
    symmetry. apply length_map. }
  unfold series_bytes.
  set (body := concat (map (fun l => l ++ [LF]) lines)).
  change (lit "*" ++ [LF] ++ body ++ lit "#" ++ [LF])
    with ((lit "*" ++ [LF]) ++ body ++ (lit "#" ++ [LF])).
  rewrite onSerial_app.
  assert (E1 : onSerialDataReceived (lit "*" ++ [LF]) initial =
               ([receiving 0], with_line [] ReceivingSeries emptySeries []))
    by (vm_compute; reflexivity).
  rewrite E1. cbn [fst snd]. rewrite onSerial_app. unfold body.
  rewrite (onSerial_data_lines lines pts
             (with_line [] ReceivingSeries emptySeries []) 0
             Hp eq_refl eq_refl eq_refl) by (rewrite Hlen; exact Hsmall).
  rewrite (feed_data_lines lines pts
             (with_line [] ReceivingSeries emptySeries []) Hp eq_refl eq_refl).
  cbn [fst snd with_line state_ currentLine_ tempSeries_ series_
       emptySeries points_ app].
  destruct pts as [|p pts]; [simpl in Hpts; lia|].
  assert (E2 : fst (onSerialDataReceived (lit "#" ++ [LF])
                 {| state_ := ReceivingSeries; currentLine_ := [];
                    tempSeries_ := {| points_ := p :: pts |}; series_ := [] |})
               = [ShowMessage (lit "Ready"); RebuildChart])
    by reflexivity.
  rewrite E2, Hlen. cbn [seq map app]. reflexivity.
Qed.

Lemma status_counts_the_points_witness :
  fst (onSerialDataReceived (series_bytes [lit "1.0 0.5"; lit "2.0 1.0"])
         initial) =
    [receiving 0; receiving 1; receiving 2;
     ShowMessage (lit "Ready"); RebuildChart].
Proof.
  refine (status_counts_the_points 2 [lit "1.0 0.5"; lit "2.0 1.0"]
            [point d_1_0 d_0_5; point d_2_0 d_1_0] _ _ _ _).
  - lia.
  - reflexivity.
  - reflexivity.
  - vm_compute. reflexivity.
Defined.

(** X21: in state [Idle] every line feed sets the status to
    [Receiving data] without a dot, whatever the line, after any run of
    operations on the initial manager: the window does not look at the
    state before it reports a reception. *)
Theorem idle_line_feed_reports_reception (ops : list Operation) :
  state_ (after ops) = Idle ->
  fst (handleSerialByte LF (after ops)) = [receiving 0].
Proof.
  intros Hs. pose proof (idle_temp_empty ops Hs) as Ht.
  unfold handleSerialByte.
  destruct (process_cases LF (after ops))
    as [(Hc & _) | [(Hc & _) | [(_ & _ & Er & _ & Em)
      | [(_ & _ & _ & Er & Em) | [(_ & _ & Er & Em)
      | [(_ & _ & Hs' & _) | (_ & Hs' & _)]]]]]];
    try (exfalso; apply Hc; reflexivity);
    try discriminate Hc; try congruence.
  all: destruct (processReceivedChar LF (after ops)) as [r m'];
    cbn [fst snd] in Er, Em; subst r m'; rewrite Ascii.eqb_refl; cbv zeta;
    unfold tempSeriesSize, size, with_line; cbn [tempSeries_ emptySeries points_];
    unfold points in Ht; rewrite ?Ht; reflexivity.
Qed.

Lemma idle_line_feed_reports_reception_witness :
  fst (handleSerialByte LF
         (after (map Receive (lit "*" ++ [LF] ++ lit "1 2" ++ [LF]
                                ++ lit "#" ++ [LF]))))
  = [receiving 0].
Proof.
  apply (idle_line_feed_reports_reception
           (map Receive (lit "*" ++ [LF] ++ lit "1 2" ++ [LF]
                           ++ lit "#" ++ [LF]))).
  vm_compute. reflexivity.
Defined.

(** ** Export *)

Section ExportFacts.

Variable toString : double -> std_string.

Lemma csv_from_app (ss : list MeasurementSeries) (s : MeasurementSeries) :
  forall i,
    csv_from toString i (ss ++ [s]) =
      csv_from toString i ss ++ csv_block toString (i + length ss) s.
Proof.
  induction ss as [|s0 ss IH]; intros i; cbn [app csv_from length].
  - rewrite Nat.add_0_r, app_nil_r. reflexivity.
  - rewrite (IH (S i)), <- app_assoc.
    replace (S i + length ss) with (i + S (length ss)) by lia. reflexivity.
Qed.

Lemma py_from_app (ss : list MeasurementSeries) (s : MeasurementSeries) :
  forall i,
    py_from toString i (ss ++ [s]) =
      py_from toString i ss ++ py_block toString (i + length ss) s.
Proof.
  induction ss as [|s0 ss IH]; intros i; cbn [app py_from length].
  - rewrite Nat.add_0_r, app_nil_r. reflexivity.
  - rewrite (IH (S i)), <- app_assoc.
    replace (S i + length ss) with (i + S (length ss)) by lia. reflexivity.
Qed.

Lemma py_items_join (coord : MeasurementPoint -> double)
    (ps : list MeasurementPoint) :
  forall j,
    py_items toString coord j (j + length ps) ps =
      join (lit ", ") (map (fun p => toString (coord p)) ps).
Proof.
  induction ps as [|p ps IH]; intros j; [reflexivity|].
  cbn [py_items map length]. destruct ps as [|q ps].
  - cbn [length py_items join]. rewrite Nat.ltb_irrefl, !app_nil_r.
    reflexivity.
  - replace (j + 1 <? j + S (length (q :: ps)))%nat with true
      by (symmetry; apply Nat.ltb_lt; cbn [length]; lia).
    replace (j + S (length (q :: ps))) with (S j + length (q :: ps)) by lia.
    rewrite (IH (S j)). reflexivity.
Qed.

End ExportFacts.

(** X22: a completed series adds one block at the end of either export and
    changes nothing before it: after a call that returned
    [SeriesCompleted], the CSV text is the text of before followed by the
    block of the series, numbered after the old count, and the Python script
    is the script of before with the block of the series put in front of
    the plotting lines. *)
Theorem export_after_completion (toString : double -> std_string)
    (c : ascii) (m : MeasurementDataManager) :
  fst (processReceivedChar c m) = SeriesCompleted ->
  let m' := snd (processReceivedChar c m) in
  exportCSV toString true m' =
    Some (csv_from toString 0 (series_ m)
            ++ csv_block toString (seriesCount m) (tempSeries_ m)) /\
  exportCSV toString true m = Some (csv_from toString 0 (series_ m)) /\
  exportPython toString true m' =
    Some (py_header ++ (py_from toString 0 (series_ m)
                          ++ py_block toString (seriesCount m) (tempSeries_ m))
            ++ py_plot) /\
  exportPython toString true m =
    Some (py_header ++ py_from toString 0 (series_ m) ++ py_plot).
Proof.
  intros H. cbv zeta.
  destruct (process_series_step c m)
    as [[Er _] | (_ & _ & _ & Es & _)]; [congruence|].
  unfold exportCSV, exportPython, seriesCount. cbn [negb].
  rewrite Es, csv_from_app, py_from_app. repeat split.
Qed.

Lemma export_after_completion_witness :
  let m := with_line (lit "#") ReceivingSeries series_2 [series_1] in
  exportCSV toString_n true (snd (processReceivedChar LF m)) =
    Some (csv_from toString_n 0 [series_1]
            ++ csv_block toString_n 1 series_2).
Proof.
  cbv zeta.
  apply (export_after_completion toString_n LF
           (with_line (lit "#") ReceivingSeries series_2 [series_1])).
  reflexivity.
Defined.

(** X23: [removeLastSeries] takes the last block off either export and
    leaves the text before it as it was: with at least one completed
    series, the CSV text is the text after the removal followed by the
    block of the removed series, and the Python script is the script after
    the removal with that block put in front of the plotting lines. *)
Theorem export_after_removeLast (toString : double -> std_string)
    (m : MeasurementDataManager) :
  1 <= seriesCount m ->
  exists s,
    series_ m = series_ (removeLastSeries m) ++ [s] /\
    exportCSV toString true m =
      Some (csv_from toString 0 (series_ (removeLastSeries m))
              ++ csv_block toString (seriesCount m - 1) s) /\
    exportPython toString true m =
      Some (py_header
              ++ (py_from toString 0 (series_ (removeLastSeries m))
                    ++ py_block toString (seriesCount m - 1) s)
              ++ py_plot).
Proof.
  unfold seriesCount, removeLastSeries, exportCSV, exportPython. intros H.
  destruct (series_ m) as [|s0 ss] eqn:E; [cbn in H; lia|].
  assert (Hne : s0 :: ss <> []) by discriminate.
  destruct (exists_last Hne) as (front & s & Hl).
  cbn [series_ negb]. unfold pop_back. rewrite Hl, removelast_last.
  exists s. rewrite csv_from_app, py_from_app, length_app.
  cbn [length Nat.add]. replace (length front + 1 - 1) with (length front) by lia.
  repeat split.
Qed.

Lemma export_after_removeLast_witness :
  let m := with_line [] Idle emptySeries [series_1; series_2] in
  exists s,
    series_ m = series_ (removeLastSeries m) ++ [s] /\
    exportCSV toString_n true m =
      Some (csv_from toString_n 0 (series_ (removeLastSeries m))
              ++ csv_block toString_n (seriesCount m - 1) s) /\
    exportPython toString_n true m =
      Some (py_header
              ++ (py_from toString_n 0 (series_ (removeLastSeries m))
                    ++ py_block toString_n (seriesCount m - 1) s)
              ++ py_plot).
Proof.
  cbv zeta.
  apply (export_after_removeLast toString_n
           (with_line [] Idle emptySeries [series_1; series_2])).
  apply le_S, le_n.
Defined.

(** X24: the lists of the Python script are well separated: the loop of
    [exportPython] over the points of a series writes the numbers with
    [, ] between two of them and nothing after the last, and writes nothing
    for a series without points. *)
Theorem python_list_items_joined (toString : double -> std_string)
    (coord : MeasurementPoint -> double) (s : MeasurementSeries) :
  py_items toString coord 0 (length (points s)) (points s) =
    join (lit ", ") (map (fun p => toString (coord p)) (points s)).
Proof. exact (py_items_join toString coord (points s) 0). Qed.

(** ** Removing series *)

(** X25: removing the last series as many times as there are completed
    series, or more often, is removing all series: the completed collection
    is empty and the state, the line buffer and the temporary series are
    untouched; the removals beyond the last series do nothing. *)
Theorem removeLast_repeated_is_removeAll (n : nat)
    (m : MeasurementDataManager) :
  seriesCount m <= n -> removeLastTimes n m = removeAllSeries m.
Proof.
  unfold seriesCount. revert m. induction n as [|n IH]; intros m H.
  - destruct m as [st cur temp done]. cbn in *.
    destruct done; [reflexivity | cbn in H; lia].
  - cbn [removeLastTimes]. rewrite IH.
    + unfold removeLastSeries, removeAllSeries.
      destruct (series_ m); reflexivity.
    + unfold removeLastSeries. destruct (series_ m) as [|s ss] eqn:E.
      * rewrite E. cbn. lia.
      * cbn [series_]. unfold pop_back. rewrite removelast_length.
        cbn [length] in *. lia.
Qed.

Lemma removeLast_repeated_is_removeAll_witness :
  removeLastTimes 3 (with_line (lit "1.0") ReceivingSeries series_1
                       [series_1; series_2])
  = with_line (lit "1.0") ReceivingSeries series_1 [].
Proof.
  apply (removeLast_repeated_is_removeAll 3
           (with_line (lit "1.0") ReceivingSeries series_1
              [series_1; series_2])).
  apply le_S, le_n.
Defined.
